(** * Concerto core: name resolution, type conformance, object introspection

    A shallow embedding of [lib/modelutil.js] (class [ModelUtil]) and
    [lib/concerto.js] of concerto-core, with the properties of the
    specification proved, or refuted, on it.

    JavaScript strings are modelled by [string]; a character stands for one
    code unit.  Only the separators ['.'], ['@'] and ['_'] are ever inspected
    by the code.  A thrown [Error] is modelled by the kind of failure it
    reports. *)

From Stdlib Require Import ZArith String Ascii List Bool Lia.
From stdpp Require Import base option gmap strings.

Local Open Scope string_scope.
Local Open Scope Z_scope.

(** ** Failures *)

(** The code throws [new Error(message)]; the kinds below name the messages:
    - [InvalidArgument]: 'modelutil-getnamespace-nofnq',
      'Namespace is null or undefined.', 'Invalid namespace ...';
    - [MissingTypeTag]: 'Input object does not have a $class attribute.';
    - [UnknownType]: 'Type ... is not declared in the model manager',
      'Cannot find type ...';
    - [NotIdentifiable]: 'Object is not identifiable.';
    - [JsTypeError]: the runtime's own TypeError, raised when a string method
      is called on a value that is not a string. *)
Inductive ErrorKind : Type :=
  | InvalidArgument
  | MissingTypeTag
  | UnknownType
  | NotIdentifiable
  | JsTypeError.

Inductive Result (A : Type) : Type :=
  | Ok (a : A)
  | Throw (e : ErrorKind).
Arguments Ok {A} a.
Arguments Throw {A} e.

(** Sequencing: a throw propagates to the caller. *)
#[global] Instance Result_bind : MBind Result := fun A B k r =>
  match r with
  | Ok a => k a
  | Throw e => Throw e
  end.

(** ** JavaScript values and strings *)

(** The values an object property, an argument or a return value can hold in
    the code under study. *)
Inductive JsValue : Type :=
  | JsUndefined
  | JsNull
  | JsBool (b : bool)
  | JsString (s : string).

#[global] Instance JsValue_eq_dec : EqDecision JsValue.
Proof. solve_decision. Defined.

(** ToBoolean: what [if (v)] and [!v] look at. *)
Definition truthy (v : JsValue) : bool :=
  match v with
  | JsUndefined | JsNull => false
  | JsBool b => b
  | JsString s => negb (String.eqb s "")
  end.

(** [a === b] *)
Definition strictEq (a b : JsValue) : bool := bool_decide (a = b).

(** ToString, as used by template literals and by property keys. *)
Definition toString (v : JsValue) : string :=
  match v with
  | JsUndefined => "undefined"
  | JsNull => "null"
  | JsBool true => "true"
  | JsBool false => "false"
  | JsString s => s
  end.

(** An argument documented as a string on which the code tests [!x]:
    [None] stands for null or undefined. *)
Definition truthyStr (x : option string) : bool :=
  match x with
  | None => false
  | Some s => negb (String.eqb s "")
  end.

Module StringOps.

(** [s.lastIndexOf(c)] for a one-character pattern: the scan keeps the
    index of the latest match, -1 when there is none. *)
Fixpoint lastIndexOf_from (s : string) (c : ascii) (i acc : Z) : Z :=
  match s with
  | EmptyString => acc
  | String a s' =>
      lastIndexOf_from s' c (i + 1) (if Ascii.eqb a c then i else acc)
  end.

Definition lastIndexOf (s : string) (c : ascii) : Z :=
  lastIndexOf_from s c 0 (-1).

(** [s.substr(start, length)]; [None] is an omitted length.  A negative
    start counts from the end, and both are clamped to the string. *)
Definition substr (s : string) (start : Z) (len : option Z) : string :=
  let size := Z.of_nat (String.length s) in
  let st := if start <? 0 then Z.max (size + start) 0 else Z.min start size in
  let ln := match len with
            | None => size - st
            | Some l => Z.min (Z.max l 0) (size - st)
            end in
  String.substring (Z.to_nat st) (Z.to_nat ln) s.

(** [s.split(sep)] for a one-character separator. *)
Fixpoint split (s : string) (sep : ascii) : list string :=
  match s with
  | EmptyString => [EmptyString]
  | String a s' =>
      if Ascii.eqb a sep then EmptyString :: split s' sep
      else match split s' sep with
           | [] => [String a EmptyString]
           | p :: ps => String a p :: ps
           end
  end.

(** [s.replace(pat, rep)] for a one-character string pattern: only the
    first occurrence is replaced. *)
Fixpoint replace (s : string) (pat : ascii) (rep : string) : string :=
  match s with
  | EmptyString => EmptyString
  | String a s' =>
      if Ascii.eqb a pat then rep ++ s' else String a (replace s' pat rep)
  end.

(** [l.indexOf(x)] on an array of strings. *)
Fixpoint indexOf_from (l : list string) (x : string) (i : Z) : Z :=
  match l with
  | [] => -1
  | y :: l' => if String.eqb y x then i else indexOf_from l' x (i + 1)
  end.

Definition indexOf (l : list string) (x : string) : Z := indexOf_from l x 0.

(** [s.charAt(pos)]: the character at [pos] as a string, the empty string
    when [pos] is out of range. *)
Definition charAt (s : string) (pos : Z) : string :=
  if (pos <? 0) || (Z.of_nat (String.length s) <=? pos) then EmptyString
  else String.substring (Z.to_nat pos) 1 s.

(** [s.slice(start)], the end omitted: from [start] to the end, a negative
    [start] counting from the end, clamped to the string. *)
Definition slice (s : string) (start : Z) : string :=
  let size := Z.of_nat (String.length s) in
  let from := if start <? 0 then Z.max (size + start) 0 else Z.min start size in
  String.substring (Z.to_nat from) (Z.to_nat (size - from)) s.

End StringOps.

(** ** The semver package *)

(** [semver.parse] and [semver.valid] are a dependency of the code, taken as
    an interface: [parse] gives a structured version or null, [valid] gives
    the normalised version string or null. *)
Class Semver : Type := {
  SemVer : Type;
  semver_parse : string -> option SemVer;
  semver_valid : string -> option string;
}.

(** The contract of the package that links the two: [valid(v)] is
    [parse(v).version] when [parse(v)] is not null, and null otherwise. *)
Definition semver_valid_parses `{Semver} : Prop :=
  forall v, truthyStr (semver_valid v) = true -> semver_parse v <> None.

(** ** ModelUtil *)

Module ModelUtil.

Definition getShortName (fqn : string) : string :=
  let result := fqn in
  let dotIndex := StringOps.lastIndexOf fqn "." in
  if dotIndex >? -1 then StringOps.substr fqn (dotIndex + 1) None
  else result.

(** [!fqn] holds of an absent [fqn] and of the empty string. *)
Definition getNamespace (fqn : option string) : Result string :=
  match fqn with
  | None => Throw InvalidArgument
  | Some s =>
      if negb (truthyStr fqn) then Throw InvalidArgument
      else
        let result := "" in
        let dotIndex := StringOps.lastIndexOf s "." in
        if dotIndex >? -1 then Ok (StringOps.substr s 0 (Some dotIndex))
        else Ok result
  end.

Record ParseNamespaceResult `{Semver} : Type := {
  name : string;
  escapedNamespace : string;
  version : option string;
  versionParsed : option SemVer;
}.

(** [parts[1]] is read only when there are two parts; [version] and
    [versionParsed] are null, here [None], when there is one. *)
Definition parseNamespace `{Semver} (ns : option string)
  : Result ParseNamespaceResult :=
  match ns with
  | None => Throw InvalidArgument
  | Some s =>
      if negb (truthyStr ns) then Throw InvalidArgument
      else
        let parts := StringOps.split s "@" in
        if (Z.of_nat (length parts) >? 2) then Throw InvalidArgument
        else
          if (Z.of_nat (length parts) =? 2)
             && negb (truthyStr (semver_valid (nth 1 parts "")))
          then Throw InvalidArgument
          else
            Ok {| name := nth 0 parts "";
                  escapedNamespace := StringOps.replace s "@" "_";
                  version := if Z.of_nat (length parts) >? 1
                             then Some (nth 1 parts "") else None;
                  versionParsed := if Z.of_nat (length parts) >? 1
                                   then semver_parse (nth 1 parts "")
                                   else None |}
  end.

Definition primitiveTypes : list string :=
  ["Boolean"; "String"; "DateTime"; "Double"; "Integer"; "Long"].

Definition isPrimitiveType (typeName : string) : bool :=
  StringOps.indexOf primitiveTypes typeName >=? 0.

Definition getFullyQualifiedName (namespace : option string) (type : string)
  : string :=
  match namespace with
  | Some n => if truthyStr namespace then n ++ "." ++ type else type
  | None => type
  end.

(** [toUpperCase] is a built-in of the runtime, taken as given. *)
Definition capitalizeFirstLetter (toUpperCase : string -> string)
    (str : string) : string :=
  toUpperCase (StringOps.charAt str 0) ++ StringOps.slice str 1.

End ModelUtil.

(** ** The model layer consumed by the code *)

(** What the code calls on a type declaration.  [getIdentifierFieldName]
    returns a [JsValue]: the code distinguishes null from the other falsy
    results. *)
Class TypeDeclaration (TD : Type) : Type := {
  getFullyQualifiedName : TD -> string;
  getSuperTypeDeclaration : TD -> option TD;
  getAllSuperTypeDeclarations : TD -> list TD;
  getIdentifierFieldName : TD -> JsValue;
}.

(** A property, seen through [getFullyQualifiedTypeName()]. *)
Record Property : Type := {
  getFullyQualifiedTypeName : string;
}.

(** The registry (a model manager or a model file), seen through
    [getType(name)]: a declaration, or a falsy result. *)
Module ModelManager.
Record t (TD : Type) : Type := { getType : JsValue -> option TD }.
Arguments getType {TD} _ _.
End ModelManager.

(** A runtime object: its own properties, by key. *)
Abbreviation JsObject := (gmap string JsValue).

(** [obj.key] and [obj[key]]: undefined when the property is absent. *)
Definition getProp (obj : JsObject) (key : string) : JsValue :=
  default JsUndefined (obj !! key).

(** [obj[key] = v]; the key goes through ToString. *)
Definition setProp (obj : JsObject) (key : JsValue) (v : JsValue) : JsObject :=
  <[toString key := v]> obj.

(** ** ModelUtil.isAssignableTo *)

Module TypeConformance.
Section WithModel.
Context {TD : Type} `{TypeDeclaration TD}.

Definition isAssignableTo (modelFile : ModelManager.t TD)
    (typeName : string) (property : Property) : Result bool :=
  let propertyTypeName := getFullyQualifiedTypeName property in
  let isDirectMatch := String.eqb typeName propertyTypeName in
  if isDirectMatch || ModelUtil.isPrimitiveType typeName
     || ModelUtil.isPrimitiveType propertyTypeName
  then Ok isDirectMatch
  else
    match ModelManager.getType modelFile (JsString typeName) with
    | None => Throw UnknownType
    | Some typeDeclaration =>
        Ok (existsb
              (fun type => String.eqb (getFullyQualifiedName type)
                                      propertyTypeName)
              (getAllSuperTypeDeclarations typeDeclaration))
    end.

End WithModel.
End TypeConformance.

(** ** concerto.js *)

Module Concerto.
Section WithModel.
Context {TD : Type} `{TypeDeclaration TD}.

(** [encodeURI] is a built-in of the runtime, taken as given. *)
Variable encodeURI : string -> string.

Definition RESOURCE_SCHEME : string := "resource".

Definition checkConcertoObject (obj : JsObject)
    (modelManager : ModelManager.t TD) : Result TD :=
  if negb (truthy (getProp obj "$class")) then Throw MissingTypeTag
  else
    match ModelManager.getType modelManager (getProp obj "$class") with
    | None => Throw UnknownType
    | Some typeDeclaration => Ok typeDeclaration
    end.

(** The second [modelManager.getType(obj.$class)] of the identifier
    operations.  The registry is read-only, so it answers as it did in
    [checkConcertoObject]; calling a method on a falsy answer would be a
    TypeError. *)
Definition getTypeAgain (obj : JsObject)
    (modelManager : ModelManager.t TD) : Result TD :=
  match ModelManager.getType modelManager (getProp obj "$class") with
  | None => Throw JsTypeError
  | Some typeDeclaration => Ok typeDeclaration
  end.

Definition getIdentifier (obj : JsObject)
    (modelManager : ModelManager.t TD) : Result JsValue :=
  _ ← checkConcertoObject obj modelManager;
  typeDeclaration ← getTypeAgain obj modelManager;
  let idField := getIdentifierFieldName typeDeclaration in
  if negb (truthy idField) then Throw NotIdentifiable
  else Ok (getProp obj (toString idField)).

Definition isIdentifiable (obj : JsObject)
    (modelManager : ModelManager.t TD) : Result bool :=
  _ ← checkConcertoObject obj modelManager;
  typeDeclaration ← getTypeAgain obj modelManager;
  let idField := getIdentifierFieldName typeDeclaration in
  Ok (negb (strictEq idField JsNull)).

Definition isRelationship (obj : JsObject)
    (modelManager : ModelManager.t TD) : Result bool :=
  _ ← checkConcertoObject obj modelManager;
  Ok (strictEq (getProp obj "$relationship") (JsBool true)).

(** [setIdentifier] mutates [obj]: the object after the call is returned
    next to the outcome. *)
Definition setIdentifier (obj : JsObject)
    (modelManager : ModelManager.t TD) (id : JsValue)
  : JsObject * Result unit :=
  match checkConcertoObject obj modelManager with
  | Throw e => (obj, Throw e)
  | Ok _ =>
      match getTypeAgain obj modelManager with
      | Throw e => (obj, Throw e)
      | Ok typeDeclaration =>
          let idField := getIdentifierFieldName typeDeclaration in
          (setProp obj idField id, Ok tt)
      end
  end.

Definition getFullyQualifiedIdentifier (obj : JsObject)
    (modelManager : ModelManager.t TD) : Result string :=
  _ ← checkConcertoObject obj modelManager;
  id ← getIdentifier obj modelManager;
  Ok (toString (getProp obj "$class") ++ "#" ++ toString id).

Definition toURI (obj : JsObject)
    (modelManager : ModelManager.t TD) : Result string :=
  _ ← checkConcertoObject obj modelManager;
  id ← getIdentifier obj modelManager;
  Ok (RESOURCE_SCHEME ++ ":" ++ toString (getProp obj "$class") ++ "#"
        ++ encodeURI (toString id)).

(** [ModelUtil.getShortName] and [ModelUtil.getNamespace] call string
    methods on [obj.$class]. *)
Definition getType (obj : JsObject)
    (modelManager : ModelManager.t TD) : Result string :=
  _ ← checkConcertoObject obj modelManager;
  match getProp obj "$class" with
  | JsString fqn => Ok (ModelUtil.getShortName fqn)
  | _ => Throw JsTypeError
  end.

Definition getNamespace (obj : JsObject)
    (modelManager : ModelManager.t TD) : Result string :=
  _ ← checkConcertoObject obj modelManager;
  match getProp obj "$class" with
  | JsString fqn => ModelUtil.getNamespace (Some fqn)
  | _ => Throw JsTypeError
  end.

(** The [while (superTypeDeclaration)] loop of [instanceOf].  [fuel]
    bounds the number of times its body runs; [None] means the loop was
    still running when the fuel ran out. *)
Fixpoint instanceOf_loop (fuel : nat) (superTypeDeclaration : option TD)
    (fqt : string) : option bool :=
  match superTypeDeclaration with
  | None => Some false
  | Some s =>
      match fuel with
      | O => None
      | S fuel' =>
          if String.eqb (getFullyQualifiedName s) fqt then Some true
          else instanceOf_loop fuel' (getSuperTypeDeclaration s) fqt
      end
  end.

Definition instanceOf (fuel : nat) (obj : JsObject)
    (modelManager : ModelManager.t TD) (fqt : string)
  : option (Result bool) :=
  match checkConcertoObject obj modelManager with
  | Throw e => Some (Throw e)
  | Ok classDeclaration =>
      if String.eqb (getFullyQualifiedName classDeclaration) fqt
      then Some (Ok true)
      else
        match instanceOf_loop fuel
                (getSuperTypeDeclaration classDeclaration) fqt with
        | None => None
        | Some b => Some (Ok b)
        end
  end.

End WithModel.
End Concerto.

(** ** Vocabulary of the specification, for names *)

Module Spec.

(** Number of occurrences of a character. *)
Fixpoint occurrences (s : string) (c : ascii) : nat :=
  match s with
  | EmptyString => O
  | String a s' => if Ascii.eqb a c then S (occurrences s' c)
                   else occurrences s' c
  end.

(** The segment before the first occurrence of [c]; the whole string when
    there is none. *)
Fixpoint segmentBefore (s : string) (c : ascii) : string :=
  match s with
  | EmptyString => EmptyString
  | String a s' => if Ascii.eqb a c then EmptyString
                   else String a (segmentBefore s' c)
  end.

(** The segment after the first occurrence of [c]; empty when there is
    none. *)
Fixpoint segmentAfter (s : string) (c : ascii) : string :=
  match s with
  | EmptyString => EmptyString
  | String a s' => if Ascii.eqb a c then s' else segmentAfter s' c
  end.

(** Every occurrence of [c] replaced by [d]. *)
Fixpoint replaceAll (s : string) (c d : ascii) : string :=
  match s with
  | EmptyString => EmptyString
  | String a s' =>
      String (if Ascii.eqb a c then d else a) (replaceAll s' c d)
  end.

(** The inputs the specification has [parseNamespace] reject: empty or
    absent, more than one ['@'], or one ['@'] followed by a segment that
    [semver.valid] does not accept. *)
Definition invalidNamespace `{Semver} (ns : option string) : Prop :=
  ns = None \/ ns = Some ""
  \/ exists s, ns = Some s
       /\ ((2 <= occurrences s "@")%nat
           \/ (occurrences s "@" = 1%nat
               /\ truthyStr (semver_valid (segmentAfter s "@")) = false)).

End Spec.

(** ** Hierarchies of the specification *)

Module Spec_hierarchy.
Section WithModel.
Context {TD : Type} `{TypeDeclaration TD}.

(** [ancestors d l]: following the direct-supertype link from [d] visits
    the declarations of [l], in that order, and then finds no supertype.
    It holds of no [l] when the links run in a cycle. *)
Inductive ancestors : TD -> list TD -> Prop :=
  | ancestors_root d :
      getSuperTypeDeclaration d = None -> ancestors d []
  | ancestors_link d s l :
      getSuperTypeDeclaration d = Some s -> ancestors s l ->
      ancestors d (s :: l).

(** Some declaration of [l] has the fully-qualified name [n]. *)
Definition named (n : string) (l : list TD) : Prop :=
  exists a, In a l /\ getFullyQualifiedName a = n.

(** Single inheritance: the transitive supertype set of [d] is the set of
    declarations that the direct-supertype links reach from [d]. *)
Definition single_inheritance (d : TD) (l : list TD) : Prop :=
  ancestors d l /\ forall a, In a (getAllSuperTypeDeclarations d) <-> In a l.

(** The declaration [k] direct-supertype links above [d], if the links go
    that far; [d] itself for [k = 0]. *)
Fixpoint superAt (k : nat) (d : TD) : option TD :=
  match k with
  | O => Some d
  | S k' =>
      match getSuperTypeDeclaration d with
      | None => None
      | Some s => superAt k' s
      end
  end.

(** [d'] is a strict descendant of [d]: [d] is among the ancestors of [d']. *)
Definition strictDescendant (d' d : TD) : Prop :=
  exists l', ancestors d' l' /\ In d l'.

End WithModel.
End Spec_hierarchy.

(** ** The shared precondition, in the words of the specification *)

Module Spec_precondition.
Section WithModel.
Context {TD : Type} `{TypeDeclaration TD}.
Variable encodeURI : string -> string.

(** Each of the nine introspection operations fails with [e]; for
    [setIdentifier] the object is also left as it was. *)
Definition all_fail_with (e : ErrorKind) (obj : JsObject)
    (modelManager : ModelManager.t TD) (id : JsValue) (fqt : string)
    (fuel : nat) : Prop :=
  Concerto.getIdentifier obj modelManager = Throw e
  /\ Concerto.isIdentifiable obj modelManager = Throw e
  /\ Concerto.setIdentifier obj modelManager id = (obj, Throw e)
  /\ Concerto.isRelationship obj modelManager = Throw e
  /\ Concerto.getFullyQualifiedIdentifier obj modelManager = Throw e
  /\ Concerto.toURI encodeURI obj modelManager = Throw e
  /\ Concerto.getType obj modelManager = Throw e
  /\ Concerto.getNamespace obj modelManager = Throw e
  /\ Concerto.instanceOf fuel obj modelManager fqt = Some (Throw e).

(** The precondition as the specification states it: MissingTypeTag when
    the object lacks the field, UnknownType when the value of the field does
    not resolve. *)
Definition precondition_as_stated (obj : JsObject)
    (modelManager : ModelManager.t TD) (id : JsValue) (fqt : string)
    (fuel : nat) : Prop :=
  (obj !! "$class" = None ->
   all_fail_with MissingTypeTag obj modelManager id fqt fuel)
  /\ (forall v, obj !! "$class" = Some v ->
      ModelManager.getType modelManager v = None ->
      all_fail_with UnknownType obj modelManager id fqt fuel).

End WithModel.
End Spec_precondition.

(** ** Instances used in examples *)

Module Examples.

(** Versions of the shape MAJOR.MINOR.PATCH, each a decimal numeral
    without leading zeros: the core of the semantic-version syntax. *)
Definition isDigit (a : ascii) : bool :=
  (48 <=? nat_of_ascii a)%nat && (nat_of_ascii a <=? 57)%nat.

Fixpoint allDigits (s : string) : bool :=
  match s with
  | EmptyString => true
  | String a s' => isDigit a && allDigits s'
  end.

Definition numericIdentifier (s : string) : bool :=
  match s with
  | EmptyString => false
  | String a EmptyString => isDigit a
  | String a s' => isDigit a && negb (Ascii.eqb a "0") && allDigits s'
  end.

Definition core_parse (v : string) : option (string * string * string) :=
  match StringOps.split v "." with
  | [major; minor; patch] =>
      if numericIdentifier major && numericIdentifier minor
         && numericIdentifier patch
      then Some (major, minor, patch) else None
  | _ => None
  end.

#[export] Instance CoreSemver : Semver := {|
  SemVer := string * string * string;
  semver_parse := core_parse;
  semver_valid v :=
    match core_parse v with
    | Some (major, minor, patch) => Some (major ++ "." ++ minor ++ "." ++ patch)
    | None => None
    end;
|}.

(** Class declarations as a tree: each holds its supertype declaration. *)
Inductive ClassDeclaration : Type :=
  | rootDecl (fqn : string) (idField : JsValue)
  | subDecl (fqn : string) (idField : JsValue) (super : ClassDeclaration).

Definition cd_name (d : ClassDeclaration) : string :=
  match d with rootDecl fqn _ | subDecl fqn _ _ => fqn end.
Definition cd_idField (d : ClassDeclaration) : JsValue :=
  match d with rootDecl _ idField | subDecl _ idField _ => idField end.
Definition cd_super (d : ClassDeclaration) : option ClassDeclaration :=
  match d with rootDecl _ _ => None | subDecl _ _ super => Some super end.

Fixpoint cd_allSuper (d : ClassDeclaration) : list ClassDeclaration :=
  match d with
  | rootDecl _ _ => []
  | subDecl _ _ s => s :: cd_allSuper s
  end.

#[export] Instance ClassDeclaration_TD : TypeDeclaration ClassDeclaration := {|
  getFullyQualifiedName := cd_name;
  getSuperTypeDeclaration := cd_super;
  getAllSuperTypeDeclarations := cd_allSuper;
  getIdentifierFieldName := cd_idField;
|}.

(** A registry over a list of declarations, keyed by name. *)
Definition registry (decls : list ClassDeclaration)
  : ModelManager.t ClassDeclaration :=
  {| ModelManager.getType v :=
       match v with
       | JsString n => find (fun d => String.eqb (cd_name d) n) decls
       | _ => None
       end |}.

(** [C extends B extends A], [A] identified by [aId]; [Note], [Memo] and
    [Blank] report null, undefined and the empty string as the name of
    their identifier field. *)
Definition declA : ClassDeclaration :=
  rootDecl "org.acme.A" (JsString "aId").
Definition declB : ClassDeclaration :=
  subDecl "org.acme.B" (JsString "aId") declA.
Definition declC : ClassDeclaration :=
  subDecl "org.acme.C" (JsString "aId") declB.
Definition declNote : ClassDeclaration :=
  rootDecl "org.acme.Note" JsNull.
Definition declMemo : ClassDeclaration :=
  rootDecl "org.acme.Memo" JsUndefined.
Definition declBlank : ClassDeclaration :=
  rootDecl "org.acme.Blank" (JsString "").

Definition acme : ModelManager.t ClassDeclaration :=
  registry [declA; declB; declC; declNote; declMemo; declBlank].

Definition propertyOf (n : string) : Property :=
  {| getFullyQualifiedTypeName := n |}.

(** [{ $class: cls }] *)
Definition tagged (cls : JsValue) : JsObject := {[ "$class" := cls ]}.

(** Percent-encoding left out: the identity, right on identifiers made of
    unreserved characters. *)
Definition encodeURI_plain (s : string) : string := s.

(** Upper case on the letters a to z, every other character kept. *)
Definition upperAscii (a : ascii) : ascii :=
  if (97 <=? nat_of_ascii a)%nat && (nat_of_ascii a <=? 122)%nat
  then ascii_of_nat (nat_of_ascii a - 32) else a.

Fixpoint toUpperCase_latin (s : string) : string :=
  match s with
  | EmptyString => EmptyString
  | String a s' => String (upperAscii a) (toUpperCase_latin s')
  end.

(** A hierarchy that runs in a cycle: the one declaration [Loop] is its own
    direct supertype. *)
Inductive Looping : Type := loopDecl.

#[export] Instance Looping_TD : TypeDeclaration Looping := {|
  getFullyQualifiedName := fun _ => "org.acme.Loop";
  getSuperTypeDeclaration := fun d => Some d;
  getAllSuperTypeDeclarations := fun d => [d];
  getIdentifierFieldName := fun _ => JsNull;
|}.

Definition looping : ModelManager.t Looping :=
  {| ModelManager.getType v :=
       if strictEq v (JsString "org.acme.Loop") then Some loopDecl else None |}.

End Examples.

(** ** Facts about the string primitives *)

Section StringFacts.
Import StringOps Spec.
#[local] Arguments String.append !_ _ / : simpl nomatch.

Lemma append_assoc (s1 s2 s3 : string) : (s1 ++ s2) ++ s3 = s1 ++ s2 ++ s3.
Proof. induction s1 as [|a s1 IH]; simpl; [reflexivity | now rewrite IH]. Qed.

Lemma length_append (s1 s2 : string) :
  String.length (s1 ++ s2) = (String.length s1 + String.length s2)%nat.
Proof. induction s1 as [|a s1 IH]; simpl; [reflexivity | now rewrite IH]. Qed.

Lemma occurrences_append (s1 s2 : string) (c : ascii) :
  occurrences (s1 ++ s2) c = (occurrences s1 c + occurrences s2 c)%nat.
Proof.
  induction s1 as [|a s1 IH]; simpl; [reflexivity|].
  destruct (Ascii.eqb a c); simpl; now rewrite IH.
Qed.

(** A string with an occurrence of [c] splits at the last one. *)
Lemma split_at_last (s : string) (c : ascii) :
  (1 <= occurrences s c)%nat ->
  exists p q, s = p ++ String c q /\ occurrences q c = O.
Proof.
  induction s as [|a s IH]; simpl; [lia|].
  intros Hocc.
  destruct (Nat.eq_dec (occurrences s c) 0%nat) as [Hz | Hnz].
  - destruct (Ascii.eqb_spec a c) as [-> | Hne].
    + exists "", s. now split.
    + lia.
  - destruct IH as (p & q & -> & Hq); [lia|].
    exists (String a p), q. now split.
Qed.

(** A string with an occurrence of [c] splits at the first one. *)
Lemma split_at_first (s : string) (c : ascii) :
  (1 <= occurrences s c)%nat ->
  s = segmentBefore s c ++ String c (segmentAfter s c)
  /\ occurrences (segmentBefore s c) c = O.
Proof.
  induction s as [|a s IH]; simpl; [lia|].
  destruct (Ascii.eqb_spec a c) as [-> | Hne]; intros Hocc.
  - now split.
  - destruct (IH Hocc) as [Heq Hz]. simpl.
    destruct (Ascii.eqb_spec a c); [contradiction|].
    split; [now rewrite <- Heq | exact Hz].
Qed.

Lemma lastIndexOf_from_none (s : string) (c : ascii) (i acc : Z) :
  occurrences s c = O -> lastIndexOf_from s c i acc = acc.
Proof.
  revert i acc. induction s as [|a s IH]; simpl; intros i acc; [reflexivity|].
  destruct (Ascii.eqb a c); [discriminate|].
  intros Hz. now apply IH.
Qed.

Lemma lastIndexOf_from_last (p q : string) (c : ascii) (i acc : Z) :
  occurrences q c = O ->
  lastIndexOf_from (p ++ String c q) c i acc = i + Z.of_nat (String.length p).
Proof.
  intros Hq. revert i acc.
  induction p as [|a p IH]; simpl String.length; intros i acc.
  - simpl. rewrite Ascii.eqb_refl, lastIndexOf_from_none by exact Hq. lia.
  - change (String a p ++ String c q) with (String a (p ++ String c q)).
    simpl. rewrite IH. lia.
Qed.

Lemma lastIndexOf_none (s : string) (c : ascii) :
  occurrences s c = O -> lastIndexOf s c = -1.
Proof. apply lastIndexOf_from_none. Qed.

Lemma lastIndexOf_last (p q : string) (c : ascii) :
  occurrences q c = O ->
  lastIndexOf (p ++ String c q) c = Z.of_nat (String.length p).
Proof. intros Hq. unfold lastIndexOf. now rewrite lastIndexOf_from_last. Qed.

Lemma substring_prefix (p r : string) :
  substring 0 (String.length p) (p ++ r) = p.
Proof.
  induction p as [|a p IH]; simpl.
  - now destruct r.
  - now rewrite IH.
Qed.

Lemma substring_all (q : string) : substring 0 (String.length q) q = q.
Proof. induction q as [|a q IH]; simpl; [reflexivity | now rewrite IH]. Qed.

Lemma substring_suffix (p q : string) :
  substring (String.length p) (String.length q) (p ++ q) = q.
Proof. induction p as [|a p IH]; simpl; [apply substring_all | exact IH]. Qed.

(** [(p + c + q).substr(0, |p|)] is [p]. *)
Lemma substr_head (p r : string) :
  substr (p ++ r) 0 (Some (Z.of_nat (String.length p))) = p.
Proof.
  unfold substr. rewrite length_append.
  change (0 <? 0) with false. cbv iota.
  set (size := Z.of_nat (String.length p + String.length r)).
  replace (Z.to_nat (Z.min 0 size)) with O by lia.
  replace (Z.to_nat _) with (String.length p) by lia.
  apply substring_prefix.
Qed.

(** [(p + c + q).substr(|p| + 1)] is [q]. *)
Lemma substr_tail (p q : string) (c : ascii) :
  substr (p ++ String c q) (Z.of_nat (String.length p) + 1) None = q.
Proof.
  unfold substr. rewrite length_append. simpl String.length.
  destruct (Z.ltb_spec (Z.of_nat (String.length p) + 1) 0) as [Hlt | _]; [lia|].
  set (size := Z.of_nat (String.length p + S (String.length q))).
  set (st := Z.min (Z.of_nat (String.length p) + 1) size).
  replace (Z.to_nat (size - st)) with (String.length q) by lia.
  replace (Z.to_nat st) with (String.length (p ++ String c ""))
    by (rewrite length_append; simpl; lia).
  replace (p ++ String c q) with ((p ++ String c "") ++ q)
    by (now rewrite append_assoc).
  apply substring_suffix.
Qed.

Lemma length_split (s : string) (c : ascii) :
  length (split s c) = S (occurrences s c).
Proof.
  induction s as [|a s IH]; simpl; [reflexivity|].
  destruct (Ascii.eqb a c); simpl; [now rewrite IH|].
  destruct (split s c); simpl in *; [discriminate | exact IH].
Qed.

Lemma split_segments (s : string) (c : ascii) :
  nth 0 (split s c) "" = segmentBefore s c
  /\ ((1 <= occurrences s c)%nat ->
      split s c = segmentBefore s c :: split (segmentAfter s c) c).
Proof.
  induction s as [|a s IH]; simpl; [split; [reflexivity | lia]|].
  destruct (Ascii.eqb a c); simpl; [now split|].
  destruct IH as [IH0 IH1].
  pose proof (length_split s c) as Hlen.
  destruct (split s c) as [|p ps]; simpl in *; [discriminate|].
  split; [now rewrite IH0|].
  intros Hocc. specialize (IH1 Hocc). now inversion IH1.
Qed.

Lemma split_none (s : string) (c : ascii) :
  occurrences s c = O -> split s c = [s].
Proof.
  induction s as [|a s IH]; simpl; [reflexivity|].
  destruct (Ascii.eqb a c); [discriminate|].
  intros Hz. now rewrite IH.
Qed.

(** With at most one occurrence, replacing the first replaces them all. *)
Lemma replace_replaceAll (s : string) (c d : ascii) :
  (occurrences s c <= 1)%nat ->
  replace s c (String d "") = replaceAll s c d.
Proof.
  induction s as [|a s IH]; simpl; [reflexivity|].
  destruct (Ascii.eqb a c); intros Hocc.
  - f_equal. assert (Hz : occurrences s c = O) by lia.
    clear IH Hocc. induction s as [|b s IH]; simpl in *; [reflexivity|].
    destruct (Ascii.eqb b c); [discriminate | now rewrite <- IH].
  - now rewrite IH.
Qed.

End StringFacts.

(** ** NameResolver *)

Section NameResolver.
Import StringOps Spec ModelUtil.
#[local] Arguments String.append !_ _ / : simpl nomatch.

Lemma truthyStr_nonempty (s : string) :
  s <> "" -> truthyStr (Some s) = true.
Proof. intros Hne. simpl. now apply negb_true_iff, String.eqb_neq. Qed.

Lemma getShortName_last (p q : string) :
  occurrences q "." = O -> getShortName (p ++ String "." q) = q.
Proof.
  intros Hq. unfold getShortName. rewrite lastIndexOf_last by exact Hq.
  destruct (Z.gtb_spec (Z.of_nat (String.length p)) (-1)) as [_ | Hle]; [|lia].
  apply substr_tail.
Qed.

Lemma getNamespace_last (p q : string) :
  occurrences q "." = O ->
  getNamespace (Some (p ++ String "." q)) = Ok p.
Proof.
  intros Hq. unfold getNamespace.
  rewrite truthyStr_nonempty by (destruct p; discriminate). simpl negb.
  rewrite lastIndexOf_last by exact Hq.
  destruct (Z.gtb_spec (Z.of_nat (String.length p)) (-1)) as [_ | Hle]; [|lia].
  now rewrite substr_head.
Qed.

(** C6: a non-empty name with a dot is its namespace, a dot and its short
    name; a non-empty name without a dot has the empty namespace and is
    its own short name. *)
Theorem namespace_dot_shortname (fqn : string) :
  fqn <> "" ->
  ((1 <= occurrences fqn ".")%nat ->
   exists ns, getNamespace (Some fqn) = Ok ns
              /\ ns ++ "." ++ getShortName fqn = fqn)
  /\ (occurrences fqn "." = O ->
      getNamespace (Some fqn) = Ok "" /\ getShortName fqn = fqn).
Proof.
  intros Hne. split.
  - intros Hocc. destruct (split_at_last fqn "." Hocc) as (p & q & -> & Hq).
    exists p. rewrite getNamespace_last, getShortName_last by exact Hq.
    now split.
  - intros Hz. unfold getNamespace, getShortName.
    rewrite truthyStr_nonempty by exact Hne.
    rewrite lastIndexOf_none by exact Hz. now split.
Qed.

Lemma namespace_dot_shortname_witness :
  (exists ns, getNamespace (Some "org.acme.Person") = Ok ns
              /\ ns ++ "." ++ getShortName "org.acme.Person"
                 = "org.acme.Person")
  /\ (getNamespace (Some "Person") = Ok ""
      /\ getShortName "Person" = "Person").
Proof.
  split.
  - apply (namespace_dot_shortname "org.acme.Person");
      [discriminate | vm_compute; lia].
  - apply (namespace_dot_shortname "Person"); [discriminate | reflexivity].
Defined.

(** C7: [getNamespace] and [getShortName] undo [getFullyQualifiedName] on
    a non-empty namespace and a type name without a dot; on an empty
    namespace [getFullyQualifiedName] returns the type name. *)
Theorem getFullyQualifiedName_inverse (ns t : string) :
  (ns <> "" -> occurrences t "." = O ->
   getNamespace (Some (getFullyQualifiedName (Some ns) t)) = Ok ns
   /\ getShortName (getFullyQualifiedName (Some ns) t) = t)
  /\ getFullyQualifiedName (Some "") t = t
  /\ getFullyQualifiedName None t = t.
Proof.
  split; [|now split].
  intros Hne Ht. unfold getFullyQualifiedName.
  rewrite truthyStr_nonempty by exact Hne.
  change (ns ++ "." ++ t) with (ns ++ String "." t).
  now rewrite getNamespace_last, getShortName_last.
Qed.

Lemma getFullyQualifiedName_inverse_witness :
  getNamespace (Some (getFullyQualifiedName (Some "org.acme@1.2.3") "Person"))
    = Ok "org.acme@1.2.3"
  /\ getShortName (getFullyQualifiedName (Some "org.acme@1.2.3") "Person")
     = "Person".
Proof.
  apply (getFullyQualifiedName_inverse "org.acme@1.2.3" "Person");
    [discriminate | reflexivity].
Defined.

Context `{Semver}.

Lemma occurrences_segmentAfter (s : string) (c : ascii) :
  (1 <= occurrences s c)%nat ->
  occurrences s c = S (occurrences (segmentAfter s c) c).
Proof.
  intros Hocc. destruct (split_at_first s c Hocc) as [Heq Hz].
  rewrite Heq at 1. rewrite occurrences_append, Hz. simpl.
  now rewrite Ascii.eqb_refl.
Qed.

(** The parts of a string with exactly one separator. *)
Lemma split_one (s : string) (c : ascii) :
  occurrences s c = 1%nat ->
  split s c = [segmentBefore s c; segmentAfter s c].
Proof.
  intros Hone.
  assert (Hocc : (1 <= occurrences s c)%nat) by lia.
  destruct (split_segments s c) as [_ Hsplit].
  rewrite (Hsplit Hocc), split_none; [reflexivity|].
  pose proof (occurrences_segmentAfter s c Hocc). lia.
Qed.

Lemma parseNamespace_many (s : string) :
  (2 <= occurrences s "@")%nat ->
  parseNamespace (Some s) = Throw InvalidArgument.
Proof.
  intros Hocc. unfold parseNamespace.
  destruct (negb (truthyStr (Some s))); [reflexivity|].
  rewrite length_split.
  destruct (Z.gtb_spec (Z.of_nat (S (occurrences s "@"))) 2); [reflexivity | lia].
Qed.

Lemma parseNamespace_one (s : string) :
  occurrences s "@" = 1%nat ->
  parseNamespace (Some s) =
    if truthyStr (semver_valid (segmentAfter s "@"))
    then Ok {| name := segmentBefore s "@";
               escapedNamespace := replace s "@" "_";
               version := Some (segmentAfter s "@");
               versionParsed := semver_parse (segmentAfter s "@") |}
    else Throw InvalidArgument.
Proof.
  intros Hone. unfold parseNamespace.
  rewrite truthyStr_nonempty by (intros ->; discriminate). simpl negb.
  rewrite (split_one s "@" Hone). simpl.
  now destruct (truthyStr (semver_valid (segmentAfter s "@"))).
Qed.

Lemma parseNamespace_zero (s : string) :
  s <> "" -> occurrences s "@" = O ->
  parseNamespace (Some s) =
    Ok {| name := s; escapedNamespace := replace s "@" "_";
          version := None; versionParsed := None |}.
Proof.
  intros Hne Hz. unfold parseNamespace.
  rewrite truthyStr_nonempty by exact Hne. simpl negb.
  now rewrite (split_none s "@" Hz).
Qed.

Lemma semver_valid_parses_CoreSemver :
  @semver_valid_parses Examples.CoreSemver.
Proof.
  intros v. simpl. destruct (Examples.core_parse v); [discriminate | discriminate].
Qed.

(** C8: [parseNamespace] fails with InvalidArgument exactly on an empty or
    absent namespace, on more than one ['@'], and on one ['@'] followed by
    a segment that is not a valid semantic version; it succeeds on every
    other input. *)
Theorem parseNamespace_fails_iff (ns : option string) :
  (parseNamespace ns = Throw InvalidArgument <-> invalidNamespace ns)
  /\ (~ invalidNamespace ns -> exists r, parseNamespace ns = Ok r).
Proof.
  assert (Hcases : (invalidNamespace ns /\ parseNamespace ns = Throw InvalidArgument)
                   \/ (~ invalidNamespace ns /\ exists r, parseNamespace ns = Ok r)).
  { destruct ns as [s|]; [|left; split; [now left | reflexivity]].
    destruct (String.eqb_spec s "") as [-> | Hne];
      [left; split; [right; now left | reflexivity]|].
    destruct (le_lt_dec 2 (occurrences s "@")) as [Hmany | Hfew].
    - left. split; [|now apply parseNamespace_many].
      right; right. exists s. split; [reflexivity | now left].
    - destruct (Nat.eq_dec (occurrences s "@") 1%nat) as [Hone | Hnone].
      + rewrite (parseNamespace_one s Hone).
        destruct (truthyStr (semver_valid (segmentAfter s "@"))) eqn:Hvalid.
        * right. split; [|eauto].
          intros [Hn | [He | (s' & Hs & [Hm | [_ Hv]])]];
            [discriminate | congruence | |];
            injection Hs as <-; [lia | congruence].
        * left. split; [|reflexivity].
          right; right. exists s. split; [reflexivity | right; now split].
      + assert (Hz : occurrences s "@" = O) by lia.
        rewrite (parseNamespace_zero s Hne Hz).
        right. split; [|eauto].
        intros [Hn | [He | (s' & Hs & [Hm | [Ho _]])]];
          [discriminate | congruence | |];
          injection Hs as <-; lia. }
  destruct Hcases as [[Hinv Hthrow] | [Hok (r & Hr)]].
  - split; [now split | contradiction].
  - split; [|intros _; now exists r].
    split; [rewrite Hr; discriminate | contradiction].
Qed.

(** C4: on success, [name] is the segment before the ['@'] or the whole
    string, [escapedNamespace] has every ['@'] replaced by ['_'], and
    [version] and [versionParsed] are present exactly when there is an
    ['@'], [version] being the segment after it. *)
Theorem parseNamespace_result (s : string) (r : ParseNamespaceResult) :
  s <> "" ->
  parseNamespace (Some s) = Ok r ->
  (occurrences s "@" = O ->
   name r = s /\ version r = None /\ versionParsed r = None)
  /\ ((1 <= occurrences s "@")%nat ->
      name r = segmentBefore s "@"
      /\ version r = Some (segmentAfter s "@")
      /\ versionParsed r = semver_parse (segmentAfter s "@")
      /\ (semver_valid_parses -> versionParsed r <> None))
  /\ escapedNamespace r = replaceAll s "@" "_".
Proof.
  intros Hne Hr.
  destruct (le_lt_dec 2 (occurrences s "@")) as [Hmany | Hfew];
    [rewrite parseNamespace_many in Hr by exact Hmany; discriminate|].
  destruct (Nat.eq_dec (occurrences s "@") 1%nat) as [Hone | Hnone].
  - rewrite (parseNamespace_one s Hone) in Hr.
    destruct (truthyStr (semver_valid (segmentAfter s "@"))) eqn:Hvalid;
      [|discriminate].
    injection Hr as <-. simpl.
    split; [intros Hz; lia|].
    split; [|apply replace_replaceAll; lia].
    intros _. repeat split. intros Hcontract. now apply Hcontract.
  - assert (Hz : occurrences s "@" = O) by lia.
    rewrite (parseNamespace_zero s Hne Hz) in Hr. injection Hr as <-. simpl.
    split; [now intros _|].
    split; [intros Hocc; lia | apply replace_replaceAll; lia].
Qed.

End NameResolver.

Lemma parseNamespace_fails_iff_witness :
  @ModelUtil.parseNamespace Examples.CoreSemver (Some "a@1.0.0@2.0.0")
    = Throw InvalidArgument
  /\ @ModelUtil.parseNamespace Examples.CoreSemver (Some "org.acme@not-a-version")
     = Throw InvalidArgument
  /\ exists r, @ModelUtil.parseNamespace Examples.CoreSemver (Some "org.acme@1.2.3")
               = Ok r.
Proof.
  split; [|split].
  - apply (@parseNamespace_fails_iff Examples.CoreSemver (Some "a@1.0.0@2.0.0")).
    right; right. exists "a@1.0.0@2.0.0". split; [reflexivity|].
    left. vm_compute. lia.
  - apply (@parseNamespace_fails_iff Examples.CoreSemver
             (Some "org.acme@not-a-version")).
    right; right. exists "org.acme@not-a-version". split; [reflexivity|].
    right. split; reflexivity.
  - apply (@parseNamespace_fails_iff Examples.CoreSemver (Some "org.acme@1.2.3")).
    intros [Hn | [He | (s & Hs & [Hm | [_ Hv]])]];
      [discriminate | discriminate | |];
      injection Hs as <-; [vm_compute in Hm; lia | vm_compute in Hv; discriminate].
Defined.

Lemma parseNamespace_result_witness :
  exists r,
    @ModelUtil.parseNamespace Examples.CoreSemver (Some "org.acme@1.2.3") = Ok r
    /\ ModelUtil.name r = "org.acme"
    /\ ModelUtil.version r = Some "1.2.3"
    /\ ModelUtil.versionParsed r <> None
    /\ ModelUtil.escapedNamespace r = "org.acme_1.2.3".
Proof.
  destruct (@ModelUtil.parseNamespace Examples.CoreSemver (Some "org.acme@1.2.3"))
    as [r|e] eqn:Hr; [|vm_compute in Hr; discriminate].
  exists r. split; [reflexivity|].
  assert (Hne : "org.acme@1.2.3" <> "") by discriminate.
  destruct (@parseNamespace_result Examples.CoreSemver "org.acme@1.2.3" r Hne Hr)
    as (_ & Hat & Hesc).
  destruct Hat as (Hname & Hversion & _ & Hparsed); [vm_compute; lia|].
  repeat split; try assumption.
  apply Hparsed, semver_valid_parses_CoreSemver.
Defined.

(** ** TypeConformance *)

Section TypeConformanceFacts.
Import Spec_hierarchy TypeConformance.
Context {TD : Type} `{TypeDeclaration TD}.

Lemma isPrimitiveType_iff (n : string) :
  ModelUtil.isPrimitiveType n = true <->
  n = "Boolean" \/ n = "String" \/ n = "DateTime" \/ n = "Double"
  \/ n = "Integer" \/ n = "Long".
Proof.
  split.
  - unfold ModelUtil.isPrimitiveType, StringOps.indexOf, ModelUtil.primitiveTypes.
    cbn [StringOps.indexOf_from].
    repeat match goal with
           | |- context [String.eqb ?a n] =>
               destruct (String.eqb_spec a n) as [<- | _]; [auto 10|]
           end.
    discriminate.
  - intros Hor.
    repeat (destruct Hor as [-> | Hor]; [reflexivity|]). now subst n.
Qed.

Lemma existsb_named (n : string) (l : list TD) :
  existsb (fun type => String.eqb (getFullyQualifiedName type) n) l = true
  <-> named n l.
Proof.
  rewrite existsb_exists. unfold named.
  split; intros (a & Hin & Ha); exists a; split; try assumption;
    now apply String.eqb_eq.
Qed.

Lemma isAssignableTo_hierarchy (modelFile : ModelManager.t TD)
    (typeName : string) (property : Property) (d : TD) :
  typeName <> getFullyQualifiedTypeName property ->
  ModelUtil.isPrimitiveType typeName = false ->
  ModelUtil.isPrimitiveType (getFullyQualifiedTypeName property) = false ->
  ModelManager.getType modelFile (JsString typeName) = Some d ->
  isAssignableTo modelFile typeName property =
    Ok (existsb (fun type => String.eqb (getFullyQualifiedName type)
                               (getFullyQualifiedTypeName property))
          (getAllSuperTypeDeclarations d)).
Proof.
  intros Hne Ht Hp Hd. unfold isAssignableTo.
  apply String.eqb_neq in Hne. now rewrite Hne, Ht, Hp, Hd.
Qed.

(** C2: [isAssignableTo] answers true on equal names; otherwise false when
    either name is one of the six primitives; otherwise it fails with
    UnknownType when the type name does not resolve; otherwise it answers
    whether the property type names a declaration of the transitive
    supertype set.  With [C extends B extends A], [C] is assignable to a
    property of type [A] and [A] is not assignable to one of type [C]. *)
Theorem isAssignableTo_cases (modelFile : ModelManager.t TD)
    (typeName : string) (property : Property) :
  let propertyType := getFullyQualifiedTypeName property in
  (forall n, ModelUtil.isPrimitiveType n = true <->
             n = "Boolean" \/ n = "String" \/ n = "DateTime" \/ n = "Double"
             \/ n = "Integer" \/ n = "Long")
  /\ (typeName = propertyType ->
      isAssignableTo modelFile typeName property = Ok true)
  /\ (typeName <> propertyType ->
      ModelUtil.isPrimitiveType typeName = true
      \/ ModelUtil.isPrimitiveType propertyType = true ->
      isAssignableTo modelFile typeName property = Ok false)
  /\ (typeName <> propertyType ->
      ModelUtil.isPrimitiveType typeName = false ->
      ModelUtil.isPrimitiveType propertyType = false ->
      ModelManager.getType modelFile (JsString typeName) = None ->
      isAssignableTo modelFile typeName property = Throw UnknownType)
  /\ (forall d,
      typeName <> propertyType ->
      ModelUtil.isPrimitiveType typeName = false ->
      ModelUtil.isPrimitiveType propertyType = false ->
      ModelManager.getType modelFile (JsString typeName) = Some d ->
      exists b, isAssignableTo modelFile typeName property = Ok b
                /\ (b = true <-> named propertyType (getAllSuperTypeDeclarations d)))
  /\ (forall dC dB dA,
      let A := getFullyQualifiedName dA in
      let B := getFullyQualifiedName dB in
      let C := getFullyQualifiedName dC in
      A <> B -> A <> C -> B <> C ->
      ModelUtil.isPrimitiveType A = false ->
      ModelUtil.isPrimitiveType C = false ->
      ModelManager.getType modelFile (JsString C) = Some dC ->
      ModelManager.getType modelFile (JsString A) = Some dA ->
      getAllSuperTypeDeclarations dC = [dB; dA] ->
      getAllSuperTypeDeclarations dA = [] ->
      isAssignableTo modelFile C {| getFullyQualifiedTypeName := A |} = Ok true
      /\ isAssignableTo modelFile A {| getFullyQualifiedTypeName := C |} = Ok false).
Proof.
  intros propertyType. subst propertyType.
  split; [exact isPrimitiveType_iff|].
  split; [intros ->; unfold isAssignableTo; now rewrite String.eqb_refl|].
  split.
  { intros Hne Hprim. unfold isAssignableTo.
    apply String.eqb_neq in Hne. rewrite Hne.
    destruct Hprim as [-> | ->]; [reflexivity|].
    now rewrite orb_true_r. }
  split.
  { intros Hne Ht Hp Hnone. unfold isAssignableTo.
    apply String.eqb_neq in Hne. now rewrite Hne, Ht, Hp, Hnone. }
  split.
  { intros d Hne Ht Hp Hd.
    rewrite (isAssignableTo_hierarchy _ _ _ d Hne Ht Hp Hd).
    eexists. split; [reflexivity | apply existsb_named]. }
  intros dC dB dA A B C HAB HAC HBC HpA HpC HC HA HsupC HsupA.
  split.
  - rewrite (isAssignableTo_hierarchy _ _ _ dC); simpl; try assumption;
      [|congruence].
    rewrite HsupC. simpl. fold A B.
    now rewrite String.eqb_refl, orb_true_r.
  - rewrite (isAssignableTo_hierarchy _ _ _ dA); simpl; try assumption.
    now rewrite HsupA.
Qed.

End TypeConformanceFacts.

Section TypeConformanceExamples.
Import Examples.

Lemma isAssignableTo_cases_witness :
  TypeConformance.isAssignableTo Examples.acme "String"
    (Examples.propertyOf "String") = Ok true
  /\ TypeConformance.isAssignableTo Examples.acme "String"
       (Examples.propertyOf "Integer") = Ok false
  /\ TypeConformance.isAssignableTo Examples.acme "org.acme.Unknown"
       (Examples.propertyOf "org.acme.A") = Throw UnknownType
  /\ TypeConformance.isAssignableTo Examples.acme "org.acme.C"
       (Examples.propertyOf "org.acme.A") = Ok true
  /\ TypeConformance.isAssignableTo Examples.acme "org.acme.A"
       (Examples.propertyOf "org.acme.C") = Ok false.
Proof.
  pose proof (isAssignableTo_cases Examples.acme "String"
                (Examples.propertyOf "String")) as (_ & Hrefl & _).
  pose proof (isAssignableTo_cases Examples.acme "String"
                (Examples.propertyOf "Integer")) as (_ & _ & Hprim & _).
  pose proof (isAssignableTo_cases Examples.acme "org.acme.Unknown"
                (Examples.propertyOf "org.acme.A")) as (_ & _ & _ & Hunk & _).
  pose proof (isAssignableTo_cases Examples.acme "org.acme.C"
                (Examples.propertyOf "org.acme.A")) as (_ & _ & _ & _ & _ & Hchain).
  split; [apply Hrefl; reflexivity|].
  split; [apply Hprim; [discriminate | left; reflexivity]|].
  split; [apply Hunk; [discriminate | reflexivity ..]|].
  apply (Hchain Examples.declC Examples.declB Examples.declA);
    try discriminate; reflexivity.
Defined.

End TypeConformanceExamples.

(** ** ObjectIntrospector: the shared precondition *)

Section Precondition.
Import Concerto Spec_precondition.
Context {TD : Type} `{TypeDeclaration TD}.
Variable encodeURI : string -> string.

Lemma checkConcertoObject_missing (obj : JsObject) (mm : ModelManager.t TD) :
  truthy (getProp obj "$class") = false ->
  checkConcertoObject obj mm = Throw MissingTypeTag.
Proof. intros Hfalsy. unfold checkConcertoObject. now rewrite Hfalsy. Qed.

Lemma checkConcertoObject_unknown (obj : JsObject) (mm : ModelManager.t TD) :
  truthy (getProp obj "$class") = true ->
  ModelManager.getType mm (getProp obj "$class") = None ->
  checkConcertoObject obj mm = Throw UnknownType.
Proof.
  intros Htruthy Hnone. unfold checkConcertoObject. now rewrite Htruthy, Hnone.
Qed.

Lemma checkConcertoObject_Ok (obj : JsObject) (mm : ModelManager.t TD) (d : TD) :
  checkConcertoObject obj mm = Ok d <->
  truthy (getProp obj "$class") = true
  /\ ModelManager.getType mm (getProp obj "$class") = Some d.
Proof.
  unfold checkConcertoObject.
  destruct (truthy (getProp obj "$class")); simpl;
    [|split; [discriminate | intros [? _]; discriminate]].
  destruct (ModelManager.getType mm (getProp obj "$class")) as [d'|];
    split; try discriminate.
  - intros [= ->]. now split.
  - intros [_ [= ->]]. reflexivity.
  - intros [_ ?]. discriminate.
Qed.

Lemma getTypeAgain_Ok (obj : JsObject) (mm : ModelManager.t TD) (d : TD) :
  checkConcertoObject obj mm = Ok d -> getTypeAgain obj mm = Ok d.
Proof.
  intros Hcheck. apply checkConcertoObject_Ok in Hcheck as [_ Hd].
  unfold getTypeAgain. now rewrite Hd.
Qed.

(** A failure of the precondition is the outcome of every operation. *)
Lemma precondition_propagates (e : ErrorKind) (obj : JsObject)
    (mm : ModelManager.t TD) (id : JsValue) (fqt : string) (fuel : nat) :
  checkConcertoObject obj mm = Throw e ->
  all_fail_with encodeURI e obj mm id fqt fuel.
Proof.
  intros Hcheck.
  unfold all_fail_with, getIdentifier, isIdentifiable, setIdentifier,
    isRelationship, getFullyQualifiedIdentifier, toURI, getType, getNamespace,
    instanceOf.
  rewrite Hcheck. repeat split.
Qed.

Lemma getProp_absent (obj : JsObject) (key : string) :
  obj !! key = None -> getProp obj key = JsUndefined.
Proof. intros Hnone. unfold getProp. now rewrite Hnone. Qed.

(** C5, amended: every introspection operation fails with MissingTypeTag
    when [$class] is absent or holds a falsy value (undefined, null, false,
    the empty string), and with UnknownType when [$class] holds a truthy
    value that does not resolve in the registry. *)
Theorem precondition_failures (obj : JsObject) (mm : ModelManager.t TD)
    (id : JsValue) (fqt : string) (fuel : nat) :
  (obj !! "$class" = None ->
   all_fail_with encodeURI MissingTypeTag obj mm id fqt fuel)
  /\ (truthy (getProp obj "$class") = false ->
      all_fail_with encodeURI MissingTypeTag obj mm id fqt fuel)
  /\ (truthy (getProp obj "$class") = true ->
      ModelManager.getType mm (getProp obj "$class") = None ->
      all_fail_with encodeURI UnknownType obj mm id fqt fuel).
Proof.
  split; [|split].
  - intros Habsent. apply precondition_propagates, checkConcertoObject_missing.
    now rewrite (getProp_absent _ _ Habsent).
  - intros Hfalsy. now apply precondition_propagates, checkConcertoObject_missing.
  - intros Htruthy Hnone.
    now apply precondition_propagates, checkConcertoObject_unknown.
Qed.

End Precondition.

Section PreconditionExamples.
Import Examples Concerto Spec_precondition.

Lemma precondition_failures_witness :
  all_fail_with encodeURI_plain MissingTypeTag ∅ acme (JsString "p1")
    "org.acme.A" 0
  /\ all_fail_with encodeURI_plain MissingTypeTag (tagged JsNull) acme
       (JsString "p1") "org.acme.A" 0
  /\ all_fail_with encodeURI_plain UnknownType
       (tagged (JsString "org.acme.Unknown")) acme (JsString "p1")
       "org.acme.A" 0.
Proof.
  split; [|split].
  - apply (precondition_failures encodeURI_plain ∅ acme). reflexivity.
  - apply (precondition_failures encodeURI_plain (tagged JsNull) acme).
    reflexivity.
  - apply (precondition_failures encodeURI_plain
             (tagged (JsString "org.acme.Unknown")) acme); reflexivity.
Defined.

(** C5 as stated fails on [{ $class: '' }]: the field is there, its value
    does not resolve, and the operations fail with MissingTypeTag, not with
    UnknownType. *)
Lemma precondition_as_stated_counterexample :
  tagged (JsString "") !! "$class" = Some (JsString "")
  /\ ModelManager.getType acme (JsString "") = None
  /\ getIdentifier (tagged (JsString "")) acme = Throw MissingTypeTag
  /\ ~ precondition_as_stated encodeURI_plain (tagged (JsString "")) acme
         (JsString "p1") "org.acme.A" 0.
Proof.
  split; [reflexivity|]. split; [reflexivity|]. split; [reflexivity|].
  intros [_ Hunresolved].
  destruct (Hunresolved (JsString "") eq_refl eq_refl) as [Hget _].
  vm_compute in Hget. discriminate.
Qed.

End PreconditionExamples.

(** ** ObjectIntrospector: identifiers *)

Section Identifiers.
Import Concerto.
Context {TD : Type} `{TypeDeclaration TD}.

Lemma getIdentifier_valid (obj : JsObject) (mm : ModelManager.t TD) (d : TD) :
  checkConcertoObject obj mm = Ok d ->
  getIdentifier obj mm =
    if negb (truthy (getIdentifierFieldName d)) then Throw NotIdentifiable
    else Ok (getProp obj (toString (getIdentifierFieldName d))).
Proof.
  intros Hcheck. unfold getIdentifier.
  now rewrite Hcheck, (getTypeAgain_Ok _ _ _ Hcheck).
Qed.

Lemma isIdentifiable_valid (obj : JsObject) (mm : ModelManager.t TD) (d : TD) :
  checkConcertoObject obj mm = Ok d ->
  isIdentifiable obj mm = Ok (negb (strictEq (getIdentifierFieldName d) JsNull)).
Proof.
  intros Hcheck. unfold isIdentifiable.
  now rewrite Hcheck, (getTypeAgain_Ok _ _ _ Hcheck).
Qed.

(** On a valid object [setIdentifier] never throws: it writes under
    whatever [getIdentifierFieldName] returned. *)
Lemma setIdentifier_valid (obj : JsObject) (mm : ModelManager.t TD) (d : TD)
    (id : JsValue) :
  checkConcertoObject obj mm = Ok d ->
  setIdentifier obj mm id = (setProp obj (getIdentifierFieldName d) id, Ok tt).
Proof.
  intros Hcheck. unfold setIdentifier.
  now rewrite Hcheck, (getTypeAgain_Ok _ _ _ Hcheck).
Qed.

(** C10: on a valid object [isIdentifiable] answers true exactly when
    [getIdentifierFieldName] is not null; when it is undefined or the empty
    string, [isIdentifiable] answers true and [getIdentifier] fails with
    NotIdentifiable. *)
Theorem isIdentifiable_not_null (obj : JsObject) (mm : ModelManager.t TD)
    (d : TD) :
  checkConcertoObject obj mm = Ok d ->
  (exists b, isIdentifiable obj mm = Ok b
             /\ (b = true <-> getIdentifierFieldName d <> JsNull))
  /\ (getIdentifierFieldName d = JsUndefined
      \/ getIdentifierFieldName d = JsString "" ->
      isIdentifiable obj mm = Ok true
      /\ getIdentifier obj mm = Throw NotIdentifiable).
Proof.
  intros Hcheck.
  rewrite (isIdentifiable_valid _ _ _ Hcheck), (getIdentifier_valid _ _ _ Hcheck).
  split.
  - eexists. split; [reflexivity|]. unfold strictEq.
    rewrite negb_true_iff, bool_decide_eq_false. tauto.
  - intros [-> | ->]; now split.
Qed.

End Identifiers.

Section IdentifierExamples.
Import Examples Concerto.

Lemma isIdentifiable_not_null_witness :
  (isIdentifiable (tagged (JsString "org.acme.Memo")) acme = Ok true
   /\ getIdentifier (tagged (JsString "org.acme.Memo")) acme
      = Throw NotIdentifiable)
  /\ (isIdentifiable (tagged (JsString "org.acme.Blank")) acme = Ok true
      /\ getIdentifier (tagged (JsString "org.acme.Blank")) acme
         = Throw NotIdentifiable)
  /\ exists b, isIdentifiable (tagged (JsString "org.acme.Note")) acme = Ok b
               /\ (b = true <-> getIdentifierFieldName declNote <> JsNull).
Proof.
  split; [|split].
  - apply (isIdentifiable_not_null (tagged (JsString "org.acme.Memo")) acme
             declMemo); [reflexivity | left; reflexivity].
  - apply (isIdentifiable_not_null (tagged (JsString "org.acme.Blank")) acme
             declBlank); [reflexivity | right; reflexivity].
  - apply (isIdentifiable_not_null (tagged (JsString "org.acme.Note")) acme
             declNote). reflexivity.
Defined.

(** C1 at [{ $class: 'org.acme.Note' }], whose type reports null as the name
    of its identifier field: [getIdentifier] fails with NotIdentifiable,
    [setIdentifier] does not fail and leaves the identifier under the
    property named 'null'. *)
Theorem setIdentifier_without_identifier_field :
  checkConcertoObject (tagged (JsString "org.acme.Note")) acme = Ok declNote
  /\ getIdentifierFieldName declNote = JsNull
  /\ getIdentifier (tagged (JsString "org.acme.Note")) acme
     = Throw NotIdentifiable
  /\ setIdentifier (tagged (JsString "org.acme.Note")) acme (JsString "n1")
     = (<["null" := JsString "n1"]> (tagged (JsString "org.acme.Note")), Ok tt)
  /\ <["null" := JsString "n1"]> (tagged (JsString "org.acme.Note"))
     <> tagged (JsString "org.acme.Note").
Proof.
  split; [reflexivity|]. split; [reflexivity|]. split; [reflexivity|].
  split.
  - now rewrite (setIdentifier_valid _ _ declNote).
  - intros Heq.
    assert (Hlook : (<["null" := JsString "n1"]> (tagged (JsString "org.acme.Note"))
                       : JsObject) !! "null"
                    = tagged (JsString "org.acme.Note") !! "null")
      by now rewrite Heq.
    rewrite lookup_insert_eq in Hlook. vm_compute in Hlook. discriminate.
Qed.

End IdentifierExamples.

(** ** ObjectIntrospector: instanceOf *)

Section InstanceOf.
Import Concerto Spec_hierarchy.
Context {TD : Type} `{TypeDeclaration TD}.

Lemma instanceOf_valid (fuel : nat) (obj : JsObject) (mm : ModelManager.t TD)
    (fqt : string) (d : TD) :
  checkConcertoObject obj mm = Ok d ->
  instanceOf fuel obj mm fqt =
    if String.eqb (getFullyQualifiedName d) fqt then Some (Ok true)
    else match instanceOf_loop fuel (getSuperTypeDeclaration d) fqt with
         | None => None
         | Some b => Some (Ok b)
         end.
Proof. intros Hcheck. unfold instanceOf. now rewrite Hcheck. Qed.

Lemma ancestors_deterministic (d : TD) (l1 l2 : list TD) :
  ancestors d l1 -> ancestors d l2 -> l1 = l2.
Proof.
  intros H1. revert l2.
  induction H1 as [d Hd | d s l Hd _ IH]; intros l2 H2;
    inversion H2 as [d' Hd' | d' s' l' Hd' Hs']; subst; try congruence.
  assert (s' = s) as -> by congruence.
  f_equal. now apply IH.
Qed.

(** The chain of an ancestor is strictly shorter: no declaration is its own
    ancestor. *)
Lemma ancestors_shorter (d a : TD) (l la : list TD) :
  ancestors d l -> In a l -> ancestors a la -> (length la < length l)%nat.
Proof.
  intros Hd. revert a la.
  induction Hd as [d Hd | d s l Hd Hs IH]; intros a la Hin Ha; [destruct Hin|].
  destruct Hin as [<- | Hin]; simpl.
  - rewrite (ancestors_deterministic _ _ _ Ha Hs). lia.
  - specialize (IH a la Hin Ha). lia.
Qed.

(** On a finite chain the loop ends within as many rounds as the chain has
    links, with the answer of a search by name. *)
Lemma instanceOf_loop_finite (d : TD) (l : list TD) (fqt : string) :
  ancestors d l ->
  forall fuel, (length l <= fuel)%nat ->
    instanceOf_loop fuel (getSuperTypeDeclaration d) fqt =
      Some (existsb (fun a => String.eqb (getFullyQualifiedName a) fqt) l).
Proof.
  induction 1 as [d Hd | d s l Hd Hs IH]; intros fuel Hfuel.
  - rewrite Hd. now destruct fuel.
  - rewrite Hd. destruct fuel as [|fuel]; simpl in *; [lia|].
    destruct (String.eqb (getFullyQualifiedName s) fqt); [reflexivity|].
    apply IH. lia.
Qed.

(** A match [k] links up is found within [k] rounds, whatever lies above. *)
Lemma instanceOf_loop_found (k : nat) (fqt : string) :
  forall (d a : TD) (fuel : nat),
    superAt k d = Some a -> getFullyQualifiedName a = fqt ->
    (k <= fuel)%nat ->
    (if String.eqb (getFullyQualifiedName d) fqt then Some true
     else instanceOf_loop fuel (getSuperTypeDeclaration d) fqt) = Some true.
Proof.
  induction k as [|k IH]; intros d a fuel Hat Hname Hfuel; simpl in Hat.
  - injection Hat as ->. now rewrite Hname, String.eqb_refl.
  - destruct (String.eqb (getFullyQualifiedName d) fqt); [reflexivity|].
    destruct (getSuperTypeDeclaration d) as [s|]; [|discriminate].
    destruct fuel as [|fuel]; [lia|]. simpl.
    apply (IH s a fuel Hat Hname). lia.
Qed.

(** The answer of [instanceOf] on a finite chain. *)
Lemma instanceOf_finite (obj : JsObject) (mm : ModelManager.t TD)
    (fqt : string) (d : TD) (l : list TD) (fuel : nat) :
  checkConcertoObject obj mm = Ok d ->
  ancestors d l -> (length l <= fuel)%nat ->
  instanceOf fuel obj mm fqt =
    Some (Ok (String.eqb (getFullyQualifiedName d) fqt
              || existsb (fun a => String.eqb (getFullyQualifiedName a) fqt) l)).
Proof.
  intros Hcheck Hanc Hfuel.
  rewrite (instanceOf_valid _ _ _ _ _ Hcheck).
  destruct (String.eqb (getFullyQualifiedName d) fqt); [reflexivity|].
  now rewrite (instanceOf_loop_finite d l fqt Hanc fuel Hfuel).
Qed.

(** C3: on a valid object [instanceOf] answers true when the declaration
    has the target name, and otherwise true exactly when an ancestor on the
    chain of direct supertypes has it, false once the chain is exhausted;
    so it answers false on a name that is neither, and on the name of a
    strict descendant. *)
Theorem instanceOf_walk (obj : JsObject) (mm : ModelManager.t TD)
    (fqt : string) (d : TD) :
  checkConcertoObject obj mm = Ok d ->
  (getFullyQualifiedName d = fqt ->
   forall fuel, instanceOf fuel obj mm fqt = Some (Ok true))
  /\ (forall k a, superAt k d = Some a -> getFullyQualifiedName a = fqt ->
      forall fuel, (k <= fuel)%nat ->
        instanceOf fuel obj mm fqt = Some (Ok true))
  /\ (forall l, ancestors d l ->
      forall fuel, (length l <= fuel)%nat ->
        exists b, instanceOf fuel obj mm fqt = Some (Ok b)
                  /\ (b = true <->
                      getFullyQualifiedName d = fqt \/ named fqt l)
                  /\ (getFullyQualifiedName d <> fqt -> ~ named fqt l ->
                      b = false))
  /\ (forall l d', ancestors d l -> strictDescendant d' d ->
      fqt = getFullyQualifiedName d' ->
      (forall x, In x (d :: l) ->
         getFullyQualifiedName x = getFullyQualifiedName d' -> x = d') ->
      forall fuel, (length l <= fuel)%nat ->
        instanceOf fuel obj mm fqt = Some (Ok false)).
Proof.
  intros Hcheck.
  assert (Hiff : forall l,
             (String.eqb (getFullyQualifiedName d) fqt
              || existsb (fun a => String.eqb (getFullyQualifiedName a) fqt) l)
             = true <-> getFullyQualifiedName d = fqt \/ named fqt l).
  { intros l. now rewrite orb_true_iff, String.eqb_eq, existsb_named. }
  split; [|split; [|split]].
  - intros Hname fuel. rewrite (instanceOf_valid _ _ _ _ _ Hcheck).
    now rewrite Hname, String.eqb_refl.
  - intros k a Hat Hname fuel Hfuel.
    rewrite (instanceOf_valid _ _ _ _ _ Hcheck).
    pose proof (instanceOf_loop_found k fqt d a fuel Hat Hname Hfuel) as Hfound.
    destruct (String.eqb (getFullyQualifiedName d) fqt); [reflexivity|].
    now rewrite Hfound.
  - intros l Hanc fuel Hfuel.
    rewrite (instanceOf_finite _ _ fqt _ _ _ Hcheck Hanc Hfuel).
    eexists. split; [reflexivity|]. split; [apply Hiff|].
    intros Hne Hnot. apply not_true_is_false. rewrite Hiff. tauto.
  - intros l d' Hanc (l' & Hanc' & Hin) -> Hunique fuel Hfuel.
    rewrite (instanceOf_finite _ _ _ _ _ _ Hcheck Hanc Hfuel).
    do 2 f_equal. apply not_true_is_false. rewrite Hiff.
    pose proof (ancestors_shorter _ _ _ _ Hanc' Hin Hanc) as Hshort.
    assert (Hout : ~ In d' (d :: l)).
    { intros [-> | Hin'].
      - rewrite (ancestors_deterministic _ _ _ Hanc Hanc') in Hshort. lia.
      - pose proof (ancestors_shorter _ _ _ _ Hanc Hin' Hanc'). lia. }
    intros [Hname | (a & Hin' & Hname)]; apply Hout.
    + left. apply Hunique; [now left | exact Hname].
    + right. now rewrite <- (Hunique a (or_intror Hin') Hname).
Qed.

End InstanceOf.

Section InstanceOfExamples.
Import Examples Concerto Spec_hierarchy.

Lemma ancestors_declB : ancestors declB [declA].
Proof.
  apply ancestors_link; [reflexivity|]. now apply ancestors_root.
Defined.

Lemma ancestors_declC : ancestors declC [declB; declA].
Proof. apply ancestors_link; [reflexivity | exact ancestors_declB]. Defined.

Lemma instanceOf_walk_witness :
  instanceOf 0 (tagged (JsString "org.acme.B")) acme "org.acme.B"
    = Some (Ok true)
  /\ instanceOf 1 (tagged (JsString "org.acme.B")) acme "org.acme.A"
     = Some (Ok true)
  /\ (exists b, instanceOf 1 (tagged (JsString "org.acme.B")) acme
                  "org.acme.Note" = Some (Ok b)
                /\ (b = true <->
                    getFullyQualifiedName declB = "org.acme.Note"
                    \/ named "org.acme.Note" [declA])
                /\ (getFullyQualifiedName declB <> "org.acme.Note" ->
                    ~ named "org.acme.Note" [declA] -> b = false))
  /\ instanceOf 1 (tagged (JsString "org.acme.B")) acme "org.acme.C"
     = Some (Ok false).
Proof.
  assert (Hcheck : checkConcertoObject (tagged (JsString "org.acme.B")) acme
                   = Ok declB) by reflexivity.
  split; [|split; [|split]].
  - apply (instanceOf_walk _ acme "org.acme.B" declB Hcheck); reflexivity.
  - apply (instanceOf_walk _ acme "org.acme.A" declB Hcheck) with
      (k := 1%nat) (a := declA); [reflexivity | reflexivity | lia].
  - apply (instanceOf_walk _ acme "org.acme.Note" declB Hcheck);
      [exact ancestors_declB | simpl; lia].
  - apply (instanceOf_walk _ acme "org.acme.C" declB Hcheck) with
      (l := [declA]) (d' := declC).
    + exact ancestors_declB.
    + exists [declB; declA]. split; [exact ancestors_declC | now left].
    + reflexivity.
    + intros x [<- | [<- | []]]; discriminate.
    + simpl; lia.
Defined.

End InstanceOfExamples.

(** ** The two hierarchy walks *)

Section HierarchyWalks.
Import Concerto TypeConformance Spec_hierarchy.
Context {TD : Type} `{TypeDeclaration TD}.

Lemma existsb_same_members (n : string) (l1 l2 : list TD) :
  (forall a, In a l1 <-> In a l2) ->
  existsb (fun a => String.eqb (getFullyQualifiedName a) n) l1
  = existsb (fun a => String.eqb (getFullyQualifiedName a) n) l2.
Proof.
  intros Hsame. apply eq_true_iff_eq. rewrite !existsb_exists.
  split; intros (a & Hin & Ha); exists a; split; try assumption;
    now apply Hsame.
Qed.

(** C9: under single inheritance, for a non-primitive type name [T] that
    the registry resolves to the declaration named [T], and a non-primitive
    target [P], [isAssignableTo] on [T] and a property of type [P] returns
    the boolean that [instanceOf] returns on an object of that declaration
    and the target [P]. *)
Theorem instanceOf_agrees_with_isAssignableTo (mm : ModelManager.t TD)
    (T P : string) (obj : JsObject) (d : TD) (l : list TD) :
  ModelUtil.isPrimitiveType T = false ->
  ModelUtil.isPrimitiveType P = false ->
  ModelManager.getType mm (JsString T) = Some d ->
  getFullyQualifiedName d = T ->
  checkConcertoObject obj mm = Ok d ->
  single_inheritance d l ->
  forall fuel, (length l <= fuel)%nat ->
    exists b,
      isAssignableTo mm T {| getFullyQualifiedTypeName := P |} = Ok b
      /\ instanceOf fuel obj mm P = Some (Ok b).
Proof.
  intros HT HP Hd Hname Hcheck [Hanc Hsame] fuel Hfuel.
  rewrite (instanceOf_finite _ _ P _ _ _ Hcheck Hanc Hfuel), Hname.
  destruct (String.eqb_spec T P) as [-> | Hne].
  - exists true. split; [|reflexivity].
    unfold isAssignableTo. simpl. now rewrite String.eqb_refl.
  - eexists. split; [|reflexivity].
    rewrite (isAssignableTo_hierarchy mm T _ d); try assumption.
    simpl. f_equal. now apply existsb_same_members.
Qed.

End HierarchyWalks.

Section HierarchyWalksExamples.
Import Examples Concerto TypeConformance Spec_hierarchy.

Lemma instanceOf_agrees_with_isAssignableTo_witness :
  exists b,
    isAssignableTo acme "org.acme.C" (propertyOf "org.acme.A") = Ok b
    /\ instanceOf 2 (tagged (JsString "org.acme.C")) acme "org.acme.A"
       = Some (Ok b).
Proof.
  apply (instanceOf_agrees_with_isAssignableTo acme "org.acme.C" "org.acme.A"
           (tagged (JsString "org.acme.C")) declC [declB; declA]).
  - reflexivity.
  - reflexivity.
  - reflexivity.
  - reflexivity.
  - reflexivity.
  - split; [exact ancestors_declC | intros a; reflexivity].
  - simpl; lia.
Defined.

End HierarchyWalksExamples.

(** ** NameResolver: further properties *)

Section NameResolverMore.
Import StringOps Spec ModelUtil.
#[local] Arguments String.append !_ _ / : simpl nomatch.

(** X1: The short name holds no ['.'], so taking it twice changes nothing. *)
Theorem getShortName_no_dot (fqn : string) :
  occurrences (getShortName fqn) "." = O
  /\ getShortName (getShortName fqn) = getShortName fqn.
Proof.
  assert (Hno : occurrences (getShortName fqn) "." = O).
  { destruct (Nat.eq_dec (occurrences fqn ".") 0%nat) as [Hz | Hnz].
    - unfold getShortName. now rewrite lastIndexOf_none by exact Hz.
    - destruct (split_at_last fqn ".") as (p & q & -> & Hq); [lia|].
      now rewrite getShortName_last. }
  split; [exact Hno|].
  unfold getShortName at 1. now rewrite lastIndexOf_none by exact Hno.
Qed.

(** X2: [getNamespace] fails, with InvalidArgument, exactly on an absent or
    empty name; on any other name it returns a proper prefix of it. *)
Theorem getNamespace_total (fqn : option string) :
  (getNamespace fqn = Throw InvalidArgument <-> fqn = None \/ fqn = Some "")
  /\ (forall s, fqn = Some s -> s <> "" ->
      exists ns rest,
        getNamespace fqn = Ok ns /\ s = ns ++ rest /\ rest <> "").
Proof.
  assert (Hok : forall s, s <> "" ->
            exists ns rest,
              getNamespace (Some s) = Ok ns /\ s = ns ++ rest /\ rest <> "").
  { intros s Hne.
    destruct (Nat.eq_dec (occurrences s ".") 0%nat) as [Hz | Hnz].
    - exists "", s. unfold getNamespace.
      rewrite truthyStr_nonempty by exact Hne.
      rewrite lastIndexOf_none by exact Hz. now repeat split.
    - destruct (split_at_last s ".") as (p & q & -> & Hq); [lia|].
      exists p, (String "." q). rewrite getNamespace_last by exact Hq.
      repeat split. discriminate. }
  split.
  - split.
    + destruct fqn as [s|]; [|now left]. intros Hthrow.
      destruct (String.eqb_spec s "") as [-> | Hne]; [now right|].
      destruct (Hok s Hne) as (ns & rest & Hns & _). congruence.
    + intros [-> | ->]; reflexivity.
  - intros s -> Hne. now apply Hok.
Qed.

Lemma getNamespace_total_witness :
  exists ns rest,
    getNamespace (Some "org.acme@1.0.0.Person") = Ok ns
    /\ "org.acme@1.0.0.Person" = ns ++ rest /\ rest <> "".
Proof.
  apply (proj2 (getNamespace_total (Some "org.acme@1.0.0.Person"))
           "org.acme@1.0.0.Person"); [reflexivity | discriminate].
Defined.

(** X3: Putting the namespace and the short name of a name back together with
    [getFullyQualifiedName] gives the name again, unless its only ['.'] is
    its first character: the namespace is then empty and the dot is lost. *)
Theorem getFullyQualifiedName_recomposes (fqn : string) :
  (forall ns, getNamespace (Some fqn) = Ok ns ->
     ns <> "" \/ occurrences fqn "." = O ->
     getFullyQualifiedName (Some ns) (getShortName fqn) = fqn)
  /\ (forall t, fqn = String "." t -> occurrences t "." = O ->
      getNamespace (Some fqn) = Ok ""
      /\ getFullyQualifiedName (Some "") (getShortName fqn) = t).
Proof.
  split.
  - intros ns Hns Hcase.
    destruct (Nat.eq_dec (occurrences fqn ".") 0%nat) as [Hz | Hnz].
    + assert (Hne : fqn <> "") by (intros ->; discriminate).
      unfold getNamespace in Hns. rewrite truthyStr_nonempty in Hns by exact Hne.
      rewrite lastIndexOf_none in Hns by exact Hz. injection Hns as <-.
      unfold getShortName. now rewrite lastIndexOf_none by exact Hz.
    + destruct Hcase as [Hne | Hz]; [|contradiction].
      destruct (split_at_last fqn ".") as (p & q & -> & Hq); [lia|].
      rewrite getNamespace_last in Hns by exact Hq. injection Hns as <-.
      rewrite getShortName_last by exact Hq.
      unfold getFullyQualifiedName. now rewrite truthyStr_nonempty.
  - intros t -> Ht.
    change (String "." t) with ("" ++ String "." t).
    now rewrite getNamespace_last, getShortName_last.
Qed.

Lemma getFullyQualifiedName_recomposes_witness :
  getFullyQualifiedName (Some "org.acme@1.0.0")
    (getShortName "org.acme@1.0.0.Person") = "org.acme@1.0.0.Person"
  /\ (getNamespace (Some ".Person") = Ok ""
      /\ getFullyQualifiedName (Some "") (getShortName ".Person") = "Person").
Proof.
  split.
  - apply (proj1 (getFullyQualifiedName_recomposes "org.acme@1.0.0.Person"));
      [reflexivity | left; discriminate].
  - apply (proj2 (getFullyQualifiedName_recomposes ".Person") "Person");
      reflexivity.
Defined.

End NameResolverMore.

(** ** parseNamespace: further properties *)

Section ParseNamespaceMore.
Import StringOps Spec ModelUtil.
#[local] Arguments String.append !_ _ / : simpl nomatch.
Context `{Semver}.

Lemma replace_at_first (p q : string) (c : ascii) (rep : string) :
  occurrences p c = O ->
  replace (p ++ String c q) c rep = p ++ rep ++ q.
Proof.
  induction p as [|a p IH]; simpl.
  - now rewrite Ascii.eqb_refl.
  - destruct (Ascii.eqb a c); [discriminate|].
    intros Hz. now rewrite IH.
Qed.

(** What a successful parse returns, by the number of ['@']. *)
Lemma parseNamespace_Ok (s : string) (r : ParseNamespaceResult) :
  parseNamespace (Some s) = Ok r ->
  (occurrences s "@" = O
   /\ r = {| name := s; escapedNamespace := replace s "@" "_";
             version := None; versionParsed := None |})
  \/ (occurrences s "@" = 1%nat
      /\ truthyStr (semver_valid (segmentAfter s "@")) = true
      /\ r = {| name := segmentBefore s "@";
                escapedNamespace := replace s "@" "_";
                version := Some (segmentAfter s "@");
                versionParsed := semver_parse (segmentAfter s "@") |}).
Proof.
  intros Hr.
  destruct (String.eqb_spec s "") as [-> | Hne]; [discriminate|].
  destruct (le_lt_dec 2 (occurrences s "@")) as [Hmany | Hfew];
    [rewrite parseNamespace_many in Hr by exact Hmany; discriminate|].
  destruct (Nat.eq_dec (occurrences s "@") 1%nat) as [Hone | Hnone].
  - rewrite (parseNamespace_one s Hone) in Hr.
    destruct (truthyStr (semver_valid (segmentAfter s "@"))) eqn:Hvalid;
      [|discriminate].
    injection Hr as <-. right. now repeat split.
  - assert (Hz : occurrences s "@" = O) by lia.
    rewrite (parseNamespace_zero s Hne Hz) in Hr. injection Hr as <-.
    left. now split.
Qed.

(** X4: A parsed namespace is its name, followed by ['@'] and its version when
    it has one. *)
Theorem parseNamespace_recomposes (s : string) (r : ParseNamespaceResult) :
  parseNamespace (Some s) = Ok r ->
  s = name r ++ match version r with
                | Some v => "@" ++ v
                | None => ""
                end.
Proof.
  intros Hr. destruct (parseNamespace_Ok s r Hr) as [[Hz ->] | (Hone & _ & ->)];
    simpl.
  - clear. induction s as [|a s IH]; simpl; [reflexivity | now rewrite <- IH].
  - apply split_at_first. lia.
Qed.

(** X5: The escaped namespace of a parsed namespace holds no ['@'], is as long
    as the namespace, and is the name followed by ['_'] and the version
    when there is one. *)
Theorem parseNamespace_escaped (s : string) (r : ParseNamespaceResult) :
  parseNamespace (Some s) = Ok r ->
  occurrences (escapedNamespace r) "@" = O
  /\ String.length (escapedNamespace r) = String.length s
  /\ escapedNamespace r = name r ++ match version r with
                                    | Some v => "_" ++ v
                                    | None => ""
                                    end.
Proof.
  intros Hr. destruct (parseNamespace_Ok s r Hr) as [[Hz ->] | (Hone & _ & ->)];
    simpl.
  - assert (Hsame : replace s "@" "_" = s).
    { clear Hr. induction s as [|a s IH]; simpl in *; [reflexivity|].
      destruct (Ascii.eqb a "@"); [discriminate | now rewrite IH]. }
    rewrite Hsame. repeat split; [exact Hz|].
    clear. induction s as [|a s IH]; simpl; [reflexivity | now rewrite <- IH].
  - assert (Hocc : (1 <= occurrences s "@")%nat) by lia.
    destruct (split_at_first s "@" Hocc) as [Heq Hbefore].
    pose proof (occurrences_segmentAfter s "@" Hocc) as Hafter.
    remember (segmentBefore s "@") as p eqn:Hp.
    remember (segmentAfter s "@") as q eqn:Hq.
    assert (Hrep : replace s "@" "_" = p ++ "_" ++ q).
    { rewrite Heq. now apply replace_at_first. }
    rewrite Hrep. repeat split.
    + rewrite occurrences_append, Hbefore. simpl. lia.
    + rewrite Heq, !length_append. reflexivity.
Qed.

(** X6: Neither the name nor the version of a parsed namespace holds an ['@'],
    and the version is one that [semver.valid] accepts. *)
Theorem parseNamespace_parts (s : string) (r : ParseNamespaceResult) :
  parseNamespace (Some s) = Ok r ->
  occurrences (name r) "@" = O
  /\ (forall v, version r = Some v ->
      occurrences v "@" = O /\ truthyStr (semver_valid v) = true).
Proof.
  intros Hr.
  destruct (parseNamespace_Ok s r Hr) as [[Hz ->] | (Hone & Hvalid & ->)];
    simpl.
  - split; [exact Hz | discriminate].
  - assert (Hocc : (1 <= occurrences s "@")%nat) by lia.
    destruct (split_at_first s "@" Hocc) as [_ Hbefore].
    pose proof (occurrences_segmentAfter s "@" Hocc) as Hafter.
    split; [exact Hbefore|].
    intros v [= <-]. split; [lia | exact Hvalid].
Qed.

(** X7: A version alone is accepted: ['@'] followed by a valid version parses
    to the empty name. *)
Theorem parseNamespace_empty_name (v : string) :
  occurrences v "@" = O ->
  truthyStr (semver_valid v) = true ->
  exists r, parseNamespace (Some (String "@" v)) = Ok r
            /\ name r = "" /\ version r = Some v.
Proof.
  intros Hv Hvalid.
  assert (Hone : occurrences (String "@" v) "@" = 1%nat) by (simpl; lia).
  rewrite (parseNamespace_one _ Hone). simpl. rewrite Hvalid.
  eexists. now repeat split.
Qed.

End ParseNamespaceMore.

Section ParseNamespaceMoreExamples.
Import Examples ModelUtil.

Lemma parseNamespace_recomposes_witness :
  exists r,
    parseNamespace (Some "org.acme@1.2.3") = Ok r
    /\ "org.acme@1.2.3" = name r ++ match version r with
                                    | Some v => "@" ++ v
                                    | None => ""
                                    end.
Proof.
  eexists. split; [reflexivity|].
  apply (parseNamespace_recomposes "org.acme@1.2.3"). reflexivity.
Defined.

Lemma parseNamespace_escaped_witness :
  exists r,
    parseNamespace (Some "org.acme@1.2.3") = Ok r
    /\ Spec.occurrences (escapedNamespace r) "@" = O
    /\ String.length (escapedNamespace r) = String.length "org.acme@1.2.3"
    /\ escapedNamespace r = name r ++ match version r with
                                      | Some v => "_" ++ v
                                      | None => ""
                                      end.
Proof.
  eexists. split; [reflexivity|].
  apply (parseNamespace_escaped "org.acme@1.2.3"). reflexivity.
Defined.

Lemma parseNamespace_parts_witness :
  exists r,
    parseNamespace (Some "org.acme@1.2.3") = Ok r
    /\ Spec.occurrences (name r) "@" = O
    /\ (forall v, version r = Some v ->
        Spec.occurrences v "@" = O /\ truthyStr (semver_valid v) = true).
Proof.
  eexists. split; [reflexivity|].
  apply (parseNamespace_parts "org.acme@1.2.3"). reflexivity.
Defined.

Lemma parseNamespace_empty_name_witness :
  exists r, parseNamespace (Some "@1.2.3") = Ok r
            /\ name r = "" /\ version r = Some "1.2.3".
Proof.
  apply (parseNamespace_empty_name "1.2.3"); reflexivity.
Defined.

End ParseNamespaceMoreExamples.

(** ** TypeConformance: further properties *)

Section TypeConformanceMore.
Import Spec_hierarchy TypeConformance.
Context {TD : Type} `{TypeDeclaration TD}.

(** What a true answer of [isAssignableTo] rests on. *)
Lemma isAssignableTo_true (modelFile : ModelManager.t TD) (T P : string) :
  isAssignableTo modelFile T {| getFullyQualifiedTypeName := P |} = Ok true ->
  T = P
  \/ (T <> P
      /\ ModelUtil.isPrimitiveType T = false
      /\ ModelUtil.isPrimitiveType P = false
      /\ exists d a, ModelManager.getType modelFile (JsString T) = Some d
                     /\ In a (getAllSuperTypeDeclarations d)
                     /\ getFullyQualifiedName a = P).
Proof.
  unfold isAssignableTo. simpl.
  destruct (String.eqb_spec T P) as [-> | Hne]; [now left|]. simpl.
  destruct (ModelUtil.isPrimitiveType T); [discriminate|].
  destruct (ModelUtil.isPrimitiveType P); [discriminate|]. simpl.
  destruct (ModelManager.getType modelFile (JsString T)) as [d|];
    [|discriminate].
  intros [= Hex]. apply existsb_named in Hex as (a & Hin & Ha).
  right. repeat split; try assumption. now exists d, a.
Qed.

(** X8: Assignability composes: when the registry resolves the name of each
    supertype of [C] to that supertype, and the supertypes of a supertype of
    [C] are supertypes of [C], a type assignable to a property of type [B]
    is assignable wherever [B] is. *)
Theorem isAssignableTo_transitive (modelFile : ModelManager.t TD)
    (C B A : string) (dC : TD) :
  ModelManager.getType modelFile (JsString C) = Some dC ->
  (forall a, In a (getAllSuperTypeDeclarations dC) ->
     ModelManager.getType modelFile (JsString (getFullyQualifiedName a))
     = Some a) ->
  (forall a x, In a (getAllSuperTypeDeclarations dC) ->
     In x (getAllSuperTypeDeclarations a) ->
     In x (getAllSuperTypeDeclarations dC)) ->
  isAssignableTo modelFile C {| getFullyQualifiedTypeName := B |} = Ok true ->
  isAssignableTo modelFile B {| getFullyQualifiedTypeName := A |} = Ok true ->
  isAssignableTo modelFile C {| getFullyQualifiedTypeName := A |} = Ok true.
Proof.
  intros HC Hcoherent Hclosed HCB HBA.
  destruct (isAssignableTo_true _ _ _ HCB)
    as [-> | (HneCB & HpC & _ & d & a & Hd & Hin & Ha)]; [exact HBA|].
  destruct (isAssignableTo_true _ _ _ HBA)
    as [<- | (HneBA & _ & HpA & dB & b & HdB & Hinb & Hb)]; [exact HCB|].
  assert (d = dC) as -> by congruence.
  assert (dB = a) as ->.
  { specialize (Hcoherent a Hin). rewrite Ha in Hcoherent. congruence. }
  destruct (String.eqb_spec C A) as [-> | HneCA].
  - unfold isAssignableTo. simpl. now rewrite String.eqb_refl.
  - rewrite (isAssignableTo_hierarchy modelFile C _ dC); try assumption.
    f_equal. apply existsb_named. exists b. split; [|exact Hb].
    now apply (Hclosed a).
Qed.

(** X9: No narrowing: under the same two conditions, and when no supertype of
    [T] bears the name [T], a type assignable to a property of another type
    [P] never takes a value of type [P] in return. *)
Theorem isAssignableTo_no_narrowing (modelFile : ModelManager.t TD)
    (T P : string) (dT : TD) :
  ModelManager.getType modelFile (JsString T) = Some dT ->
  (forall a, In a (getAllSuperTypeDeclarations dT) ->
     ModelManager.getType modelFile (JsString (getFullyQualifiedName a))
     = Some a) ->
  (forall a x, In a (getAllSuperTypeDeclarations dT) ->
     In x (getAllSuperTypeDeclarations a) ->
     In x (getAllSuperTypeDeclarations dT)) ->
  (forall x, In x (getAllSuperTypeDeclarations dT) ->
     getFullyQualifiedName x <> T) ->
  T <> P ->
  isAssignableTo modelFile T {| getFullyQualifiedTypeName := P |} = Ok true ->
  isAssignableTo modelFile P {| getFullyQualifiedTypeName := T |} = Ok false.
Proof.
  intros HT Hcoherent Hclosed Hfresh Hne HTP.
  destruct (isAssignableTo_true _ _ _ HTP)
    as [-> | (_ & HpT & HpP & d & a & Hd & Hin & Ha)]; [contradiction|].
  assert (d = dT) as -> by congruence.
  assert (HP : ModelManager.getType modelFile (JsString P) = Some a).
  { specialize (Hcoherent a Hin). now rewrite Ha in Hcoherent. }
  rewrite (isAssignableTo_hierarchy modelFile P _ a); try assumption;
    [|simpl; congruence].
  f_equal. apply not_true_is_false. simpl. rewrite existsb_named.
  intros (x & Hx & Hname). apply (Hfresh x); [|exact Hname].
  now apply (Hclosed a).
Qed.

(** X10: [isAssignableTo] fails only with UnknownType, and only on two distinct
    names, neither of them primitive, the first of which the registry does
    not resolve. *)
Theorem isAssignableTo_failure (modelFile : ModelManager.t TD)
    (T : string) (property : Property) (e : ErrorKind) :
  isAssignableTo modelFile T property = Throw e ->
  e = UnknownType
  /\ T <> getFullyQualifiedTypeName property
  /\ ModelUtil.isPrimitiveType T = false
  /\ ModelUtil.isPrimitiveType (getFullyQualifiedTypeName property) = false
  /\ ModelManager.getType modelFile (JsString T) = None.
Proof.
  unfold isAssignableTo.
  destruct (String.eqb_spec T (getFullyQualifiedTypeName property)) as [-> | Hne];
    [discriminate|]. simpl.
  destruct (ModelUtil.isPrimitiveType T); [discriminate|].
  destruct (ModelUtil.isPrimitiveType (getFullyQualifiedTypeName property));
    [discriminate|]. simpl.
  destruct (ModelManager.getType modelFile (JsString T)); [discriminate|].
  intros [= <-]. now repeat split.
Qed.

End TypeConformanceMore.

Section TypeConformanceMoreExamples.
Import Examples TypeConformance.

Lemma acme_coherent_declC (a : ClassDeclaration) :
  In a (getAllSuperTypeDeclarations declC) ->
  ModelManager.getType acme (JsString (getFullyQualifiedName a)) = Some a.
Proof. intros [<- | [<- | []]]; reflexivity. Defined.

Lemma acme_closed_declC (a x : ClassDeclaration) :
  In a (getAllSuperTypeDeclarations declC) ->
  In x (getAllSuperTypeDeclarations a) ->
  In x (getAllSuperTypeDeclarations declC).
Proof.
  intros [<- | [<- | []]]; simpl; [|intros []].
  intros [<- | []]. right. now left.
Defined.

Lemma isAssignableTo_transitive_witness :
  isAssignableTo acme "org.acme.C" (propertyOf "org.acme.A") = Ok true.
Proof.
  apply (isAssignableTo_transitive acme "org.acme.C" "org.acme.B" "org.acme.A"
           declC).
  - reflexivity.
  - exact acme_coherent_declC.
  - exact acme_closed_declC.
  - reflexivity.
  - reflexivity.
Defined.

Lemma isAssignableTo_no_narrowing_witness :
  isAssignableTo acme "org.acme.A" (propertyOf "org.acme.C") = Ok false.
Proof.
  apply (isAssignableTo_no_narrowing acme "org.acme.C" "org.acme.A" declC).
  - reflexivity.
  - exact acme_coherent_declC.
  - exact acme_closed_declC.
  - intros x [<- | [<- | []]]; discriminate.
  - discriminate.
  - reflexivity.
Defined.

Lemma isAssignableTo_failure_witness :
  UnknownType = UnknownType
  /\ "org.acme.Unknown" <> getFullyQualifiedTypeName (propertyOf "org.acme.A")
  /\ ModelUtil.isPrimitiveType "org.acme.Unknown" = false
  /\ ModelUtil.isPrimitiveType
       (getFullyQualifiedTypeName (propertyOf "org.acme.A")) = false
  /\ ModelManager.getType acme (JsString "org.acme.Unknown") = None.
Proof.
  apply (isAssignableTo_failure acme "org.acme.Unknown"
           (propertyOf "org.acme.A") UnknownType). reflexivity.
Defined.

End TypeConformanceMoreExamples.

(** ** ObjectIntrospector: further properties *)

Section IntrospectorMore.
Import Concerto.
Context {TD : Type} `{TypeDeclaration TD}.
Variable encodeURI : string -> string.




Lemma checkConcertoObject_kinds (obj : JsObject) (mm : ModelManager.t TD)
    (e : ErrorKind) :
  checkConcertoObject obj mm = Throw e -> e = MissingTypeTag \/ e = UnknownType.
Proof.
  unfold checkConcertoObject.
  destruct (negb (truthy (getProp obj "$class"))); [intros [= <-]; now left|].
  destruct (ModelManager.getType mm (getProp obj "$class"));
    [discriminate | intros [= <-]; now right].
Qed.




(** X14: [getIdentifier] fails with MissingTypeTag, UnknownType or
    NotIdentifiable and with nothing else, and where it succeeds
    [isIdentifiable] answers true. *)
Theorem getIdentifier_outcomes (obj : JsObject) (mm : ModelManager.t TD) :
  (forall e, getIdentifier obj mm = Throw e ->
     e = MissingTypeTag \/ e = UnknownType \/ e = NotIdentifiable)
  /\ (forall v, getIdentifier obj mm = Ok v -> isIdentifiable obj mm = Ok true).
Proof.
  clear encodeURI.
  destruct (checkConcertoObject obj mm) as [d|e0] eqn:Hcheck.
  - rewrite (getIdentifier_valid _ _ _ Hcheck), (isIdentifiable_valid _ _ _ Hcheck).
    destruct (getIdentifierFieldName d) as [| |[|]|s]; simpl;
      try (split; [intros e [= <-]; tauto | discriminate]);
      try (split; [discriminate | reflexivity]).
    destruct (String.eqb s ""); simpl;
      [split; [intros e [= <-]; tauto | discriminate]
      |split; [discriminate | reflexivity]].
  - unfold getIdentifier. rewrite Hcheck. simpl.
    split; [|discriminate].
    intros e [= <-]. destruct (checkConcertoObject_kinds _ _ _ Hcheck); tauto.
Qed.



(** X17: On a valid object [isRelationship] answers true exactly when the
    property [$relationship] is there and is the boolean true. *)
Theorem isRelationship_marker (obj : JsObject) (mm : ModelManager.t TD)
    (d : TD) :
  checkConcertoObject obj mm = Ok d ->
  exists b, isRelationship obj mm = Ok b
            /\ (b = true <-> obj !! "$relationship" = Some (JsBool true)).
Proof.
  intros Hcheck. unfold isRelationship. rewrite Hcheck. simpl.
  eexists. split; [reflexivity|].
  unfold strictEq, getProp. rewrite bool_decide_eq_true.
  destruct (obj !! "$relationship") as [v|]; simpl;
    [split; congruence | split; discriminate].
Qed.

End IntrospectorMore.

(** ** ObjectIntrospector: names and hierarchy *)

Section IntrospectorNames.
Import Concerto Spec Spec_hierarchy.
#[local] Arguments String.append !_ _ / : simpl nomatch.
Context {TD : Type} `{TypeDeclaration TD}.

(** X18: On a valid object tagged with a string, [getType] and [getNamespace]
    both succeed; with a ['.'] in the tag they split it at its last ['.'],
    without one the namespace is empty and the type is the whole tag. *)
Theorem getNamespace_getType_of_object (obj : JsObject)
    (mm : ModelManager.t TD) (d : TD) (cls : string) :
  checkConcertoObject obj mm = Ok d ->
  getProp obj "$class" = JsString cls ->
  exists ns type,
    getNamespace obj mm = Ok ns /\ getType obj mm = Ok type
    /\ occurrences type "." = O
    /\ ((1 <= occurrences cls ".")%nat -> cls = ns ++ "." ++ type)
    /\ (occurrences cls "." = O -> ns = "" /\ type = cls).
Proof.
  intros Hcheck Hcls.
  assert (Hne : cls <> "").
  { apply checkConcertoObject_Ok in Hcheck as [Htruthy _].
    rewrite Hcls in Htruthy. simpl in Htruthy.
    now apply negb_true_iff, String.eqb_neq in Htruthy. }
  assert (Hns : getNamespace obj mm = ModelUtil.getNamespace (Some cls))
    by (unfold getNamespace; now rewrite Hcheck, Hcls).
  assert (Hty : getType obj mm = Ok (ModelUtil.getShortName cls))
    by (unfold getType; now rewrite Hcheck, Hcls).
  rewrite Hns, Hty.
  destruct (Nat.eq_dec (occurrences cls ".") 0%nat) as [Hz | Hnz].
  - exists "", cls. unfold ModelUtil.getNamespace, ModelUtil.getShortName.
    rewrite truthyStr_nonempty by exact Hne.
    rewrite lastIndexOf_none by exact Hz.
    repeat split; [exact Hz | intros; lia].
  - destruct (split_at_last cls ".") as (p & q & -> & Hq); [lia|].
    exists p, q. rewrite getNamespace_last, getShortName_last by exact Hq.
    repeat split; [exact Hq | intros; contradiction ..].
Qed.

Lemma superAt_add (k j : nat) :
  forall d' d a : TD,
    superAt k d' = Some d -> superAt j d = Some a ->
    superAt (k + j) d' = Some a.
Proof.
  induction k as [|k IH]; intros d' d a Hk Hj; simpl in *.
  - now injection Hk as ->.
  - destruct (getSuperTypeDeclaration d') as [s|]; [|discriminate].
    now apply (IH s d a).
Qed.

(** A true answer of the walk comes from a declaration on the chain. *)
Lemma instanceOf_loop_true (fqt : string) (fuel : nat) :
  forall d : TD,
    (if String.eqb (getFullyQualifiedName d) fqt then Some true
     else instanceOf_loop fuel (getSuperTypeDeclaration d) fqt) = Some true ->
    exists j a, superAt j d = Some a /\ getFullyQualifiedName a = fqt.
Proof.
  induction fuel as [|fuel IH]; intros d.
  - destruct (String.eqb_spec (getFullyQualifiedName d) fqt) as [Hname | _].
    + intros _. now exists O, d.
    + simpl. destruct (getSuperTypeDeclaration d); discriminate.
  - destruct (String.eqb_spec (getFullyQualifiedName d) fqt) as [Hname | _].
    + intros _. now exists O, d.
    + simpl. destruct (getSuperTypeDeclaration d) as [s|] eqn:Hs;
        [|discriminate].
      intros Hloop. destruct (IH s Hloop) as (j & a & Hat & Ha).
      exists (S j), a. simpl. now rewrite Hs.
Qed.

(** X19: Objects of a subtype are instances of whatever objects of a supertype
    are: a true answer for an object of type [d] is a true answer for an
    object of any type with [d] on its chain of direct supertypes. *)
Theorem instanceOf_inherited (obj obj' : JsObject) (mm : ModelManager.t TD)
    (d d' : TD) (k fuel : nat) (fqt : string) :
  checkConcertoObject obj mm = Ok d ->
  checkConcertoObject obj' mm = Ok d' ->
  superAt k d' = Some d ->
  instanceOf fuel obj mm fqt = Some (Ok true) ->
  exists fuel', forall n, (fuel' <= n)%nat ->
    instanceOf n obj' mm fqt = Some (Ok true).
Proof.
  intros Hcheck Hcheck' Hk Htrue.
  rewrite (instanceOf_valid _ _ _ _ _ Hcheck) in Htrue.
  assert (Hfrom : (if String.eqb (getFullyQualifiedName d) fqt then Some true
                   else instanceOf_loop fuel (getSuperTypeDeclaration d) fqt)
                  = Some true).
  { destruct (String.eqb (getFullyQualifiedName d) fqt); [reflexivity|].
    destruct (instanceOf_loop fuel (getSuperTypeDeclaration d) fqt) as [b|];
      [|discriminate].
    now injection Htrue as ->. }
  destruct (instanceOf_loop_true fqt fuel d Hfrom) as (j & a & Hj & Ha).
  exists (k + j)%nat. intros n Hn.
  rewrite (instanceOf_valid _ _ _ _ _ Hcheck').
  pose proof (instanceOf_loop_found (k + j) fqt d' a n
                (superAt_add k j d' d a Hk Hj) Ha Hn) as Hfound.
  destruct (String.eqb (getFullyQualifiedName d') fqt); [reflexivity|].
  now rewrite Hfound.
Qed.

(** X20: On a chain of direct supertypes that never ends, and on which no
    declaration bears the target name, the walk of [instanceOf] does not
    end: no number of rounds gives an answer. *)
Theorem instanceOf_endless (obj : JsObject) (mm : ModelManager.t TD)
    (d : TD) (fqt : string) :
  checkConcertoObject obj mm = Ok d ->
  (forall k, exists a, superAt k d = Some a /\ getFullyQualifiedName a <> fqt) ->
  forall fuel, instanceOf fuel obj mm fqt = None.
Proof.
  intros Hcheck Hchain fuel.
  rewrite (instanceOf_valid _ _ _ _ _ Hcheck).
  destruct (Hchain O) as (a0 & [= <-] & Hd).
  apply String.eqb_neq in Hd. rewrite Hd.
  assert (Hloop : instanceOf_loop fuel (getSuperTypeDeclaration d) fqt = None);
    [|now rewrite Hloop].
  clear Hcheck Hd. revert d Hchain.
  induction fuel as [|fuel IH]; intros d Hchain.
  - destruct (Hchain 1%nat) as (a & Hat & _). simpl in Hat.
    now destruct (getSuperTypeDeclaration d).
  - destruct (Hchain 1%nat) as (a & Hat & Ha). simpl in Hat.
    destruct (getSuperTypeDeclaration d) as [s|] eqn:Hs; [|discriminate].
    injection Hat as <-. simpl.
    apply String.eqb_neq in Ha. rewrite Ha.
    apply IH. intros k. destruct (Hchain (S k)) as (a & Hat & Hna).
    simpl in Hat. rewrite Hs in Hat. now exists a.
Qed.

End IntrospectorNames.

(** ** ModelUtil.capitalizeFirstLetter *)

Section Capitalize.
Import StringOps ModelUtil.
#[local] Arguments String.append !_ _ / : simpl nomatch.
Variable toUpperCase : string -> string.

Lemma append_empty_r (s : string) : s ++ "" = s.
Proof. induction s as [|a s IH]; simpl; [reflexivity | now rewrite IH]. Qed.

(** X21: [capitalizeFirstLetter] changes the first character only: the result
    is the upper case of the first character followed by the rest as it
    was, so a string whose first character is its own upper case comes back
    unchanged. *)
Theorem capitalizeFirstLetter_first_only (s : string) :
  capitalizeFirstLetter toUpperCase "" = toUpperCase ""
  /\ (forall a rest, s = String a rest ->
      capitalizeFirstLetter toUpperCase s = toUpperCase (String a "") ++ rest)
  /\ (toUpperCase (charAt s 0) = charAt s 0 ->
      capitalizeFirstLetter toUpperCase s = s).
Proof.
  assert (Hparts : forall a rest,
            charAt (String a rest) 0 = String a ""
            /\ slice (String a rest) 1 = rest).
  { intros a rest. unfold charAt, slice. simpl String.length.
    destruct (Z.leb_spec (Z.of_nat (S (String.length rest))) 0) as [Hle | _];
      [lia|].
    destruct (Z.ltb_spec 1 0) as [Hlt | _]; [lia|].
    change (0 <? 0) with false. simpl orb. cbv iota.
    replace (Z.to_nat (Z.min 1 (Z.of_nat (S (String.length rest)))))
      with 1%nat by lia.
    replace (Z.to_nat (Z.of_nat (S (String.length rest))
                       - Z.min 1 (Z.of_nat (S (String.length rest)))))
      with (String.length rest) by lia.
    simpl. split; [now destruct rest | apply substring_all]. }
  split; [unfold capitalizeFirstLetter; apply append_empty_r|].
  split.
  - intros a rest ->. unfold capitalizeFirstLetter.
    now destruct (Hparts a rest) as [-> ->].
  - destruct s as [|a rest]; unfold capitalizeFirstLetter.
    + intros Hfixed. change (charAt "" 0) with "" in *. rewrite Hfixed.
      reflexivity.
    + destruct (Hparts a rest) as [-> ->]. now intros ->.
Qed.

End Capitalize.

(** ** Further properties on the example registry *)

Section MoreExamples.
Import Examples Concerto Spec Spec_hierarchy.




Lemma getIdentifier_outcomes_witness :
  (NotIdentifiable = MissingTypeTag \/ NotIdentifiable = UnknownType
   \/ NotIdentifiable = NotIdentifiable)
  /\ isIdentifiable (<["aId" := JsString "a1"]> (tagged (JsString "org.acme.C")))
       acme = Ok true.
Proof.
  split.
  - apply (proj1 (getIdentifier_outcomes (tagged (JsString "org.acme.Note")) acme)
             NotIdentifiable). reflexivity.
  - apply (proj2 (getIdentifier_outcomes
                    (<["aId" := JsString "a1"]> (tagged (JsString "org.acme.C")))
                    acme) (JsString "a1")). reflexivity.
Defined.



Lemma isRelationship_marker_witness :
  exists b,
    isRelationship (<["$relationship" := JsBool true]>
                      (tagged (JsString "org.acme.A"))) acme = Ok b
    /\ (b = true <->
        (<["$relationship" := JsBool true]> (tagged (JsString "org.acme.A"))
           : JsObject) !! "$relationship" = Some (JsBool true)).
Proof.
  apply (isRelationship_marker _ acme declA). reflexivity.
Defined.

Lemma getNamespace_getType_of_object_witness :
  exists ns type,
    getNamespace (tagged (JsString "org.acme.C")) acme = Ok ns
    /\ getType (tagged (JsString "org.acme.C")) acme = Ok type
    /\ occurrences type "." = O
    /\ ((1 <= occurrences "org.acme.C" ".")%nat ->
        "org.acme.C" = ns ++ "." ++ type)
    /\ (occurrences "org.acme.C" "." = O -> ns = "" /\ type = "org.acme.C").
Proof.
  apply (getNamespace_getType_of_object (tagged (JsString "org.acme.C")) acme
           declC "org.acme.C"); reflexivity.
Defined.

Lemma instanceOf_inherited_witness :
  exists fuel', forall n, (fuel' <= n)%nat ->
    instanceOf n (tagged (JsString "org.acme.C")) acme "org.acme.A"
    = Some (Ok true).
Proof.
  apply (instanceOf_inherited (tagged (JsString "org.acme.B"))
           (tagged (JsString "org.acme.C")) acme declB declC 1 1 "org.acme.A");
    reflexivity.
Defined.

Lemma instanceOf_endless_witness :
  instanceOf 0 (tagged (JsString "org.acme.Loop")) looping "org.acme.Other"
    = None
  /\ instanceOf 64 (tagged (JsString "org.acme.Loop")) looping "org.acme.Other"
     = None.
Proof.
  assert (Hchain : forall k, exists a,
             superAt k loopDecl = Some a
             /\ getFullyQualifiedName a <> "org.acme.Other").
  { intros k. exists loopDecl. split; [|discriminate].
    induction k as [|k IH]; [reflexivity | exact IH]. }
  split;
    apply (instanceOf_endless (tagged (JsString "org.acme.Loop")) looping
             loopDecl "org.acme.Other" eq_refl Hchain).
Defined.

Lemma capitalizeFirstLetter_first_only_witness :
  ModelUtil.capitalizeFirstLetter toUpperCase_latin "person" = "Person"
  /\ ModelUtil.capitalizeFirstLetter toUpperCase_latin "Person" = "Person".
Proof.
  split.
  - apply (proj1 (proj2 (capitalizeFirstLetter_first_only toUpperCase_latin
                           "person")) "p"%char "erson"). reflexivity.
  - apply (proj2 (proj2 (capitalizeFirstLetter_first_only toUpperCase_latin
                           "Person"))). reflexivity.
Defined.

End MoreExamples.
